(** * Document-sharing front-end: client-side logic of the page components

    A shallow embedding of the pure parts of the React pages and of the
    axios wrapper of the repository:

    - [utils/api.js]          the request and response interceptors;
    - [MyDocuments.jsx]       [filterDocuments];
    - [ActivityLogs.jsx]      [filterLogs], [formatDuration];
    - [Dashboard.jsx]         [loadDashboardData], [formatDuration];
    - [AccessRequests.jsx]    [loadAllDocuments], [getStatusBadge], tab counts;
    - [SharedDocuments.jsx]   [loadSharedDocuments], the expiry test and the
                              Download button.

    Conventions.  JavaScript strings are modelled by [string], which holds
    the UTF-8 bytes of a well-formed text; [includes] and [===] agree on
    the two representations.  [String.prototype.toLowerCase] belongs to
    the engine and is a parameter of the pages ([JS.Engine]); what it does
    on ASCII text is [JS.ascii_toLowerCase].  JavaScript numbers that hold
    integers are modelled by [Z], which is exact for the doubles up to
    2^53 - 1 in absolute value, with a separate [NaN]; a statement that
    depends on the exact value of a large number carries that bound.
    Component state set through [useState] setters is a record that the
    handlers take and return; browser state ([localStorage],
    [window.location]) is threaded explicitly. *)

From Stdlib Require Import Ascii.
From stdpp Require Import base numbers strings list gmap pretty.

(** ** JavaScript values used by the pages *)

Module JS.

(** What [String.prototype.toLowerCase] does on ASCII text: the letters
    A to Z are mapped to a to z, every other character is kept. *)
Definition is_upper (c : ascii) : bool :=
  ((65 <=? N_of_ascii c) && (N_of_ascii c <=? 90))%N.

Definition lower_char (c : ascii) : ascii :=
  if is_upper c then ascii_of_N (N_of_ascii c + 32) else c.

Fixpoint ascii_toLowerCase (s : string) : string :=
  match s with
  | EmptyString => EmptyString
  | String c s' => String (lower_char c) (ascii_toLowerCase s')
  end.

(** The engine that runs the pages.  [toLowerCase] is its
    [String.prototype.toLowerCase], which follows the Unicode case
    conversion and is context-sensitive (final sigma). *)
Class Engine : Type := {
  toLowerCase : string → string
}.

(** An engine restricted to ASCII text. *)
Definition ascii_engine : Engine :=
  {| toLowerCase := ascii_toLowerCase |}.

(** An engine that, beside ASCII text, knows two Greek strings: capital
    alpha followed by capital sigma lower-cases to alpha followed by final
    sigma (U+03C2), a lone capital sigma to sigma (U+03C3). *)
Definition final_sigma_engine : Engine :=
  {| toLowerCase s :=
       if String.eqb s "ΑΣ" then "ας"
       else if String.eqb s "Σ" then "σ"
       else ascii_toLowerCase s |}.

(** [s.startsWith(p)] and [s.includes(q)]. *)
Fixpoint startsWith (s p : string) {struct p} : bool :=
  match p, s with
  | EmptyString, _ => true
  | String _ _, EmptyString => false
  | String a p', String b s' => Ascii.eqb a b && startsWith s' p'
  end.

Fixpoint includes (s q : string) : bool :=
  startsWith s q ||
  match s with
  | EmptyString => false
  | String _ s' => includes s' q
  end.

(** Truthiness of a string: only the empty string is falsy. *)
Definition truthy_str (s : string) : bool :=
  match s with EmptyString => false | String _ _ => true end.

(** A value that is either absent ([undefined], [null]) or present. *)
Inductive maybe (A : Type) : Type :=
  | Undefined : maybe A
  | Null : maybe A
  | Val : A → maybe A.
Global Arguments Undefined {A}.
Global Arguments Null {A}.
Global Arguments Val {A} _.

(** Numbers: integers and [NaN].  A JavaScript number holds an integer
    exactly up to 2^53 - 1 in absolute value; the operations below are
    those of the code on such numbers. *)
Inductive num : Type :=
  | NaN : num
  | Int : Z → num.

(** [ToNumber] of a possibly absent integer: [undefined] is [NaN],
    [null] is [0]. *)
Definition toNumber (v : maybe Z) : num :=
  match v with
  | Undefined => NaN
  | Null => Int 0
  | Val z => Int z
  end.

(** [!v] for a possibly absent integer: absent values and [0] are falsy. *)
Definition falsy (v : maybe Z) : bool :=
  match v with
  | Undefined | Null => true
  | Val z => (z =? 0)%Z
  end.

(** [Math.floor(x / d)] for a positive integer constant [d]. *)
Definition floor_div (x : num) (d : Z) : num :=
  match x with
  | NaN => NaN
  | Int z => Int (z `div` d)
  end.

(** [x % d]: the remainder takes the sign of the dividend. *)
Definition js_rem (x : num) (d : Z) : num :=
  match x with
  | NaN => NaN
  | Int z => Int (z `rem` d)
  end.

(** [x > 0]; every comparison with [NaN] is false. *)
Definition gt0 (x : num) : bool :=
  match x with
  | NaN => false
  | Int z => (0 <? z)%Z
  end.

(** Text of a number inside a template literal. *)
Definition num_to_string (x : num) : string :=
  match x with
  | NaN => "NaN"
  | Int z => pretty z
  end.

(** Text of a possibly absent integer inside a template literal. *)
Definition to_string (v : maybe Z) : string :=
  match v with
  | Undefined => "undefined"
  | Null => "null"
  | Val z => pretty z
  end.

(** [Array.prototype.findIndex]: the first index whose element satisfies
    [p], or [-1]. *)
Fixpoint findIndex_from {A} (p : A → bool) (l : list A) (i : Z) : Z :=
  match l with
  | [] => (-1)%Z
  | x :: l' => if p x then i else findIndex_from p l' (i + 1)%Z
  end.

Definition findIndex {A} (p : A → bool) (l : list A) : Z :=
  findIndex_from p l 0%Z.

(** [Array.prototype.filter] with the three-argument callback
    [(element, index, array)]. *)
Fixpoint filter_from {A} (f : A → Z → list A → bool)
    (self l : list A) (i : Z) : list A :=
  match l with
  | [] => []
  | x :: l' =>
      if f x i self then x :: filter_from f self l' (i + 1)%Z
      else filter_from f self l' (i + 1)%Z
  end.

Definition filter_indexed {A} (f : A → Z → list A → bool) (l : list A) : list A :=
  filter_from f l l 0%Z.

(** [Array.prototype.filter] with a one-argument callback. *)
Fixpoint filter {A} (f : A → bool) (l : list A) : list A :=
  match l with
  | [] => []
  | x :: l' => if f x then x :: filter f l' else filter f l'
  end.

(** Reading a property of a plain object [{}] whose own properties are
    [own]: an own property, else a member inherited from
    [Object.prototype] (a function or, for [__proto__], the prototype
    itself: truthy, and without the fields of a record), else
    [undefined]. *)
Inductive Property (V : Type) : Type :=
  | Own : V → Property V
  | Inherited : Property V
  | Absent : Property V.
Global Arguments Own {V} _.
Global Arguments Inherited {V}.
Global Arguments Absent {V}.

Definition object_prototype_names : list string :=
  ["constructor"; "__defineGetter__"; "__defineSetter__"; "hasOwnProperty";
   "__lookupGetter__"; "__lookupSetter__"; "isPrototypeOf";
   "propertyIsEnumerable"; "toString"; "valueOf"; "__proto__";
   "toLocaleString"].

Definition object_get {V} (own : gmap string V) (k : string) : Property V :=
  match own !! k with
  | Some v => Own v
  | None =>
      if existsb (String.eqb k) object_prototype_names then Inherited else Absent
  end.

(** [obj[k] = v] on such an object, for a value [v] that is an object:
    the own property [k] is set, except under the name [__proto__], the
    accessor of [Object.prototype], where the assignment replaces the
    prototype of [obj] and adds no own property. *)
Definition object_set {V} (own : gmap string V) (k : string) (v : V) : gmap string V :=
  if String.eqb k "__proto__" then own else <[k := v]> own.

(** [[...new Set(xs)]] for strings: a Set keeps its values in the order
    of first insertion; [acc] is the content of the Set so far. *)
Fixpoint set_add_all (acc xs : list string) : list string :=
  match xs with
  | [] => acc
  | x :: xs' =>
      set_add_all (if existsb (String.eqb x) acc then acc else acc ++ [x]) xs'
  end.

Definition set_spread (xs : list string) : list string :=
  set_add_all [] xs.

(** [xs.filter(Boolean)] for possibly absent strings. *)
Fixpoint filter_Boolean (xs : list (maybe string)) : list string :=
  match xs with
  | [] => []
  | Val s :: xs' =>
      if truthy_str s then s :: filter_Boolean xs' else filter_Boolean xs'
  | _ :: xs' => filter_Boolean xs'
  end.

(** [v || fallback] for a possibly absent string. *)
Definition or_default (v : maybe string) (fallback : string) : string :=
  match v with
  | Val s => if truthy_str s then s else fallback
  | _ => fallback
  end.

(** [String(v)], the text [localStorage.setItem] stores for [v]. *)
Definition string_of (v : maybe string) : string :=
  match v with
  | Undefined => "undefined"
  | Null => "null"
  | Val s => s
  end.

(** [(bytes / d).toFixed(1)] for an integer [bytes] and a power of two
    [d].  The quotient is an exact double, and [toFixed(1)] takes the
    integer [n] with [n / 10] nearest to it, the larger one on a tie. *)
Definition toFixed1 (bytes d : Z) : string :=
  let n := ((20 * bytes + d) `div` (2 * d))%Z in
  pretty (n `div` 10)%Z +:+ "." +:+ pretty (n `mod` 10)%Z.

End JS.

(** ** The browser environment

    What the code reaches through globals: [localStorage], the address bar
    ([window.location.href]), the clock read by [new Date()], and the
    requests that have been handed to the network. *)

Inductive Method : Type := GET | POST | DELETE.

(** The body of a request: a payload object or form, or the fields of a
    [URLSearchParams]. *)
Inductive Body : Type :=
  | Payload (p : string)
  | SearchParams (fields : list (string * string)).

(** An axios request configuration; [url] is relative to the base URL of
    the instance. *)
Record Config : Type := mkConfig {
  method : Method;
  url : string;
  headers : gmap string string;
  params : list (string * JS.maybe string);
  responseType : option string;
  data : option Body
}.

Record Browser : Type := mkBrowser {
  localStorage : gmap string string;
  location_href : string;
  clock : Z;
  sent : list Config
}.

(** [localStorage.getItem(k)]: [None] stands for [null]. *)
Definition getItem (b : Browser) (k : string) : option string :=
  localStorage b !! k.

(** Things a callback does to the browser. *)
Inductive Effect : Type :=
  | RemoveItem (k : string)
  | SetHref (u : string)
  | Send (c : Config).

Definition run_effect (b : Browser) (e : Effect) : Browser :=
  match e with
  | RemoveItem k =>
      mkBrowser (delete k (localStorage b)) (location_href b) (clock b) (sent b)
  | SetHref u =>
      mkBrowser (localStorage b) u (clock b) (sent b)
  | Send c =>
      mkBrowser (localStorage b) (location_href b) (clock b) (sent b ++ [c])
  end.

Definition run_effects (b : Browser) (es : list Effect) : Browser :=
  fold_left run_effect es b.

(** A settled promise. *)
Inductive Promise (A E : Type) : Type :=
  | Resolved : A → Promise A E
  | Rejected : E → Promise A E.
Global Arguments Resolved {A E} _.
Global Arguments Rejected {A E} _.

(** ** utils/api.js *)

Module Api.

Record Response : Type := mkResponse {
  status : Z;
  body : string
}.

(** An axios error; [response] is absent when no answer arrived. *)
Record AxiosError : Type := mkError {
  response : option Response;
  message : string
}.

(** The request interceptor:
    [const token = localStorage.getItem('token');
     if (token) config.headers.Authorization = `Bearer ${token}`;
     return config]. *)
Definition request_interceptor (b : Browser) (config : Config) : Config :=
  let token := getItem b "token" in
  match token with
  | Some t =>
      if JS.truthy_str t then
        mkConfig (method config) (url config)
          (<["Authorization" := "Bearer " +:+ t]> (headers config))
          (params config) (responseType config) (data config)
      else config
  | None => config
  end.

(** The response interceptor, success callback: [(response) => response]. *)
Definition response_fulfilled (r : Response)
  : list Effect * Promise Response AxiosError :=
  ([], Resolved r).

(** [error.response?.status === 401]. *)
Definition is_401 (error : AxiosError) : bool :=
  match response error with
  | Some r => (status r =? 401)%Z
  | None => false
  end.

(** The response interceptor, failure callback. *)
Definition response_rejected (error : AxiosError)
  : list Effect * Promise Response AxiosError :=
  ((if is_401 error then [RemoveItem "token"; SetHref "/"] else []),
   Rejected error).

(** The browser after the failure callback has run. *)
Definition after_rejected (b : Browser) (error : AxiosError) : Browser :=
  run_effects b (fst (response_rejected error)).

(** The calls offered by [authAPI], [documentsAPI], [permissionsAPI] and
    [activityAPI]. *)
Inductive Call : Type :=
  | AuthRegister (payload : string)
  | AuthLogin (email password : string)
  | AuthGetMe
  | DocumentsUpload (formData : string)
  | DocumentsGetMy
  | DocumentsGetShared
  | DocumentsGetById (id : string)
  | DocumentsDownload (id : string)
  | DocumentsDelete (id : string)
  | PermissionsRequest (payload : string)
  | PermissionsGrant (payload : string)
  | PermissionsGetIncoming
  | PermissionsGetOutgoing
  | ActivityGetLogs (documentId : JS.maybe string)
  | ActivityGetSummary
  | ActivityLogView (documentId : JS.maybe string) (durationSeconds : JS.maybe Z).

(** A numeric query parameter as text. *)
Definition param_of_number (v : JS.maybe Z) : JS.maybe string :=
  match v with
  | JS.Undefined => JS.Undefined
  | JS.Null => JS.Null
  | JS.Val z => JS.Val (pretty z)
  end.

Definition plain (m : Method) (u : string) (d : option Body) : Config :=
  mkConfig m u ∅ [] None d.

(** The configuration each call hands to axios. *)
Definition config_of (c : Call) : Config :=
  match c with
  | AuthRegister payload => plain POST "/auth/register" (Some (Payload payload))
  | AuthLogin email password =>
      mkConfig POST "/auth/login"
        {["Content-Type" := "application/x-www-form-urlencoded"]} [] None
        (Some (SearchParams [("username", email); ("password", password)]))
  | AuthGetMe => plain GET "/auth/me" None
  | DocumentsUpload formData =>
      mkConfig POST "/documents/upload"
        {["Content-Type" := "multipart/form-data"]} [] None (Some (Payload formData))
  | DocumentsGetMy => plain GET "/documents/my" None
  | DocumentsGetShared => plain GET "/documents/shared" None
  | DocumentsGetById id => plain GET ("/documents/" +:+ id) None
  | DocumentsDownload id =>
      mkConfig GET ("/documents/" +:+ id +:+ "/download") ∅ [] (Some "blob") None
  | DocumentsDelete id => plain DELETE ("/documents/" +:+ id) None
  | PermissionsRequest payload =>
      plain POST "/permissions/request" (Some (Payload payload))
  | PermissionsGrant payload =>
      plain POST "/permissions/grant" (Some (Payload payload))
  | PermissionsGetIncoming => plain GET "/permissions/incoming" None
  | PermissionsGetOutgoing => plain GET "/permissions/outgoing" None
  | ActivityGetLogs documentId =>
      mkConfig GET "/activity/logs" ∅ [("document_id", documentId)] None None
  | ActivityGetSummary => plain GET "/activity/summary" None
  | ActivityLogView documentId durationSeconds =>
      mkConfig POST "/activity/log-view" ∅
        [("document_id", documentId);
         ("duration_seconds", param_of_number durationSeconds)]
        None None
  end.

(** The request as it leaves the client: the call's configuration after
    the request interceptor. *)
Definition outgoing (b : Browser) (c : Call) : Config :=
  request_interceptor b (config_of c).

End Api.

(** ** Records of the backend's response bodies *)

Record Document : Type := mkDocument {
  doc_id : string;
  filename : string;
  description : JS.maybe string;
  category : JS.maybe string;
  file_size : Z;
  uploaded_at : string;
  owner_name : string
}.

Record Permission : Type := mkPermission {
  perm_id : string;
  document_id : string;
  requester_name : string;
  permission_type : string;
  perm_status : string;
  requested_at : string;
  expires_at : JS.maybe string;
  grant_reason : JS.maybe string
}.

Record ActivityLog : Type := mkLog {
  log_id : string;
  action : string;
  user_name : string;
  document_name : string;
  timestamp : string;
  duration_seconds : JS.maybe Z
}.

Record WeeklySummary : Type := mkSummary {
  week_start : string;
  week_end : string;
  documents_accessed : Z;
  documents_uploaded : Z;
  permissions_granted : Z;
  total_active_seconds : JS.maybe Z;
  top_documents : list (string * Z)
}.

(** [v === s] for a possibly absent string [v] and a string [s]. *)
Definition strict_eq (v : JS.maybe string) (s : string) : bool :=
  match v with
  | JS.Val x => String.eqb x s
  | _ => false
  end.

(** The answer of one API call as the page sees it after [await]. *)
Inductive Answer (A : Type) : Type :=
  | Ok : A → Answer A
  | Failed : Api.AxiosError → Answer A.
Global Arguments Ok {A} _.
Global Arguments Failed {A} _.

(** A notification raised through [toast]. *)
Inductive Toast : Type :=
  | ToastError (text : string)
  | ToastSuccess (text : string)
  | ToastInfo (text : string).

(** The icons shown beside an action. *)
Inductive ActionIcon : Type :=
  | IconEye | IconDownload | IconUpload | IconTrash2 | IconUserPlus | IconFileText.

(** ** pages/MyDocuments.jsx *)

Module MyDocuments.

Record State : Type := mkState {
  documents : list Document;
  filteredDocs : list Document;
  searchQuery : string;
  categoryFilter : string
}.

Definition setFilteredDocs (st : State) (l : list Document) : State :=
  mkState (documents st) l (searchQuery st) (categoryFilter st).

(** The callback of the search filter:
    [doc.filename.toLowerCase().includes(q.toLowerCase()) ||
     doc.description?.toLowerCase().includes(q.toLowerCase())]. *)
Definition search_callback `{!JS.Engine} (q : string) (doc : Document) : bool :=
  JS.includes (JS.toLowerCase (filename doc)) (JS.toLowerCase q) ||
  match description doc with
  | JS.Val d => JS.includes (JS.toLowerCase d) (JS.toLowerCase q)
  | _ => false
  end.

Definition filterDocuments `{!JS.Engine} (st : State) : State :=
  let filtered := documents st in
  let filtered :=
    if JS.truthy_str (searchQuery st)
    then JS.filter (search_callback (searchQuery st)) filtered
    else filtered in
  let filtered :=
    if negb (String.eqb (categoryFilter st) "all")
    then JS.filter (λ doc, strict_eq (category doc) (categoryFilter st)) filtered
    else filtered in
  setFilteredDocs st filtered.

(** The categories offered by the filter, after the fixed entry 'all':
    [[...new Set(documents.map((d) => d.category).filter(Boolean))]]. *)
Definition uniqueCategories (st : State) : list string :=
  JS.set_spread (JS.filter_Boolean (map category (documents st))).

(** [formatFileSize]. *)
Definition formatFileSize (bytes : Z) : string :=
  if (bytes <? 1024)%Z then pretty bytes +:+ " B"
  else if (bytes <? 1024 * 1024)%Z then JS.toFixed1 bytes 1024 +:+ " KB"
  else JS.toFixed1 bytes (1024 * 1024) +:+ " MB".

(** The state of the upload dialog; the selected file is known by its
    name, [None] stands for [null]. *)
Record UploadData : Type := mkUploadData {
  upload_description : string;
  upload_category : string
}.

Record Dialog : Type := mkDialog {
  uploadDialogOpen : bool;
  selectedFile : option string;
  uploadData : UploadData;
  toasts : list Toast
}.

(** What one run of [handleUpload] leaves behind: the dialog, the forms
    posted through [documentsAPI.upload], and the calls of
    [loadDocuments]. *)
Record Outcome : Type := mkOutcome {
  dialog : Dialog;
  uploads : list (list (string * string));
  reloads : nat
}.

Definition with_toast (d : Dialog) (t : Toast) : Dialog :=
  mkDialog (uploadDialogOpen d) (selectedFile d) (uploadData d) (toasts d ++ [t]).

(** The fields appended to the [FormData]. *)
Definition formData_of (file : string) (u : UploadData) : list (string * string) :=
  [("file", file)] ++
  (if JS.truthy_str (upload_description u)
   then [("description", upload_description u)] else []) ++
  (if JS.truthy_str (upload_category u)
   then [("category", upload_category u)] else []).

Section Upload.

(** [error.response?.data?.detail]. *)
Variable detail : Api.AxiosError → JS.maybe string.

(** The backend, as far as [await documentsAPI.upload(formData)] sees it. *)
Variable upload : list (string * string) → Answer unit.

Definition handleUpload (d : Dialog) : Outcome :=
  match selectedFile d with
  | None => mkOutcome (with_toast d (ToastError "Please select a file")) [] 0
  | Some file =>
      let formData := formData_of file (uploadData d) in
      match upload formData with
      | Ok _ =>
          mkOutcome
            (mkDialog false None (mkUploadData "" "")
               (toasts d ++ [ToastSuccess "Document uploaded successfully"]))
            [formData] 1
      | Failed error =>
          mkOutcome
            (with_toast d (ToastError (JS.or_default (detail error) "Upload failed")))
            [formData] 0
      end
  end.

End Upload.

(** What the page lists: [filteredDocs] once the effect that calls
    [filterDocuments] has run. *)
Definition view `{!JS.Engine} (st : State) : list Document :=
  filteredDocs (filterDocuments st).

End MyDocuments.

(** ** pages/ActivityLogs.jsx *)

Module ActivityLogs.

Record State : Type := mkState {
  logs : list ActivityLog;
  filteredLogs : list ActivityLog;
  searchQuery : string;
  actionFilter : string
}.

Definition setFilteredLogs (st : State) (l : list ActivityLog) : State :=
  mkState (logs st) l (searchQuery st) (actionFilter st).

Definition search_callback `{!JS.Engine} (q : string) (log : ActivityLog) : bool :=
  JS.includes (JS.toLowerCase (document_name log)) (JS.toLowerCase q) ||
  JS.includes (JS.toLowerCase (user_name log)) (JS.toLowerCase q).

Definition filterLogs `{!JS.Engine} (st : State) : State :=
  let filtered := logs st in
  let filtered :=
    if JS.truthy_str (searchQuery st)
    then JS.filter (search_callback (searchQuery st)) filtered
    else filtered in
  let filtered :=
    if negb (String.eqb (actionFilter st) "all")
    then JS.filter (λ log, String.eqb (action log) (actionFilter st)) filtered
    else filtered in
  setFilteredLogs st filtered.

(** [formatDuration]; [None] stands for [null]. *)
Definition formatDuration (seconds : JS.maybe Z) : option string :=
  if JS.falsy seconds then None
  else
    let hours := JS.floor_div (JS.toNumber seconds) 3600 in
    let minutes := JS.floor_div (JS.js_rem (JS.toNumber seconds) 3600) 60 in
    if JS.gt0 hours
    then Some (JS.num_to_string hours +:+ "h " +:+ JS.num_to_string minutes +:+ "m")
    else if JS.gt0 minutes
    then Some (JS.num_to_string minutes +:+ "m")
    else Some (JS.to_string seconds +:+ "s").

(** [v || fallback] for the result of [formatDuration]. *)
Definition or_else (v : option string) (fallback : string) : string :=
  match v with
  | Some s => if JS.truthy_str s then s else fallback
  | None => fallback
  end.

(** The Duration cell of a table row:
    [formatDuration(log.duration_seconds) || '-']. *)
Definition duration_cell (log : ActivityLog) : string :=
  or_else (formatDuration (duration_seconds log)) "-".

(** [log.duration_seconds || 0]. *)
Definition or_zero (v : JS.maybe Z) : Z :=
  match v with
  | JS.Val z => z
  | _ => 0
  end.

(** The Total Duration card:
    [formatDuration(logs.reduce((sum, log) => sum + (log.duration_seconds || 0), 0)) || '0m']. *)
Definition total_duration_card (st : State) : string :=
  or_else
    (formatDuration
       (JS.Val (fold_left (λ sum log, (sum + or_zero (duration_seconds log))%Z)
                  (logs st) 0%Z)))
    "0m".

(** The actions offered by the filter, after the fixed entry 'all':
    [[...new Set(logs.map((log) => log.action))]]. *)
Definition uniqueActions (st : State) : list string :=
  JS.set_spread (map action (logs st)).

Definition getActionIcon (action : string) : ActionIcon :=
  if String.eqb action "view" then IconEye
  else if String.eqb action "download" then IconDownload
  else if String.eqb action "upload" then IconUpload
  else if String.eqb action "delete" then IconTrash2
  else if String.eqb action "request_access" then IconUserPlus
  else if String.eqb action "grant_access" then IconUserPlus
  else IconFileText.

Definition getActionColor (action : string) : string :=
  if String.eqb action "view" then "bg-blue-100 text-blue-700 border-blue-200"
  else if String.eqb action "download" then "bg-green-100 text-green-700 border-green-200"
  else if String.eqb action "upload" then "bg-purple-100 text-purple-700 border-purple-200"
  else if String.eqb action "delete" then "bg-red-100 text-red-700 border-red-200"
  else if String.eqb action "request_access" then "bg-amber-100 text-amber-700 border-amber-200"
  else if String.eqb action "grant_access" then "bg-amber-100 text-amber-700 border-amber-200"
  else "bg-gray-100 text-gray-700 border-gray-200".

(** What the page shows: the rows with their Duration cell, and the
    Total Duration card. *)
Definition view `{!JS.Engine} (st : State) : list (ActivityLog * string) * string :=
  (map (λ log, (log, duration_cell log)) (filteredLogs (filterLogs st)),
   total_duration_card st).

End ActivityLogs.

(** ** pages/Dashboard.jsx *)

Module Dashboard.

Record Stats : Type := mkStats {
  myDocuments : nat;
  sharedDocuments : nat;
  pendingRequests : nat
}.

Record State : Type := mkState {
  summary : option WeeklySummary;
  recentActivity : list ActivityLog;
  stats : Stats;
  isLoading : bool;
  toasts : list string
}.

(** [useState] initial values. *)
Definition initial : State :=
  mkState None [] (mkStats 0 0 0) true [].

(** [loadDashboardData]: the five answers are awaited together with
    [Promise.all]; one failure sends control to the [catch] block. *)
Definition loadDashboardData (st : State)
    (summaryRes : Answer WeeklySummary)
    (logsRes : Answer (list ActivityLog))
    (myDocsRes sharedDocsRes : Answer (list Document))
    (incomingReqRes : Answer (list Permission)) : State :=
  match summaryRes, logsRes, myDocsRes, sharedDocsRes, incomingReqRes with
  | Ok s, Ok lg, Ok my, Ok sh, Ok inc =>
      mkState (Some s) (take 10 lg)
        (mkStats (length my) (length sh)
           (length (JS.filter (λ r, String.eqb (perm_status r) "pending") inc)))
        false (toasts st)
  | _, _, _, _, _ =>
      mkState (summary st) (recentActivity st) (stats st) false
        (toasts st ++ ["Failed to load dashboard data"])
  end.

(** [formatDuration], without the guard of the Activity Logs version. *)
Definition formatDuration (seconds : JS.maybe Z) : string :=
  let hours := JS.floor_div (JS.toNumber seconds) 3600 in
  let minutes := JS.floor_div (JS.js_rem (JS.toNumber seconds) 3600) 60 in
  if JS.gt0 hours
  then JS.num_to_string hours +:+ "h " +:+ JS.num_to_string minutes +:+ "m"
  else if JS.gt0 minutes
  then JS.num_to_string minutes +:+ "m"
  else JS.to_string seconds +:+ "s".

Definition getActionIcon (action : string) : ActionIcon :=
  if String.eqb action "view" then IconEye
  else if String.eqb action "download" then IconDownload
  else if String.eqb action "upload" then IconUpload
  else IconFileText.

(** The duration after the timestamp of a recent activity:
    [log.duration_seconds && <span> ... {formatDuration(log.duration_seconds)}</span>].
    React prints nothing for an absent value, a bare [0] for zero, and
    otherwise the span, which holds a separator and the formatted text. *)
Inductive RecentDuration : Type :=
  | Nothing
  | BareZero
  | Span (text : string).

Definition recent_duration (log : ActivityLog) : RecentDuration :=
  match duration_seconds log with
  | JS.Val z =>
      if (z =? 0)%Z then BareZero
      else Span (formatDuration (duration_seconds log))
  | _ => Nothing
  end.

(** What the page shows of durations: the Total Active Time of the weekly
    summary and the durations of the recent activity. *)
Definition view (st : State) : option string * list (ActivityLog * RecentDuration) :=
  ((λ s, formatDuration (total_active_seconds s)) <$> summary st,
   map (λ log, (log, recent_duration log)) (recentActivity st)).

End Dashboard.

(** ** pages/AccessRequests.jsx *)

Module AccessRequests.

Record State : Type := mkState {
  incomingRequests : list Permission;
  outgoingRequests : list Permission;
  allDocuments : list Document;
  isLoading : bool;
  toasts : list string
}.

Definition initial : State := mkState [] [] [] true [].

Definition loadRequests (st : State)
    (incomingRes outgoingRes : Answer (list Permission)) : State :=
  match incomingRes, outgoingRes with
  | Ok inc, Ok out =>
      mkState inc out (allDocuments st) false (toasts st)
  | _, _ =>
      mkState (incomingRequests st) (outgoingRequests st) (allDocuments st)
        false (toasts st ++ ["Failed to load requests"])
  end.

(** The callback of the duplicate filter:
    [(doc, index, self) => index === self.findIndex((d) => d.id === doc.id)]. *)
Definition first_occurrence (doc : Document) (index : Z) (self : list Document) : bool :=
  (index =? JS.findIndex (λ d, String.eqb (doc_id d) (doc_id doc)) self)%Z.

(** [[...myDocs.data, ...sharedDocs.data]] without duplicates. *)
Definition uniqueDocs (myDocs sharedDocs : list Document) : list Document :=
  let allDocs := myDocs ++ sharedDocs in
  JS.filter_indexed first_occurrence allDocs.

(** [loadAllDocuments]; a failure is only written to the console. *)
Definition loadAllDocuments (st : State)
    (myDocs sharedDocs : Answer (list Document)) : State :=
  match myDocs, sharedDocs with
  | Ok my, Ok sh =>
      mkState (incomingRequests st) (outgoingRequests st) (uniqueDocs my sh)
        (isLoading st) (toasts st)
  | _, _ => st
  end.

Inductive Icon : Type := Clock | CheckCircle2 | XCircle | AlertCircle.

Record Badge : Type := mkBadge {
  className : string;
  icon : Icon;
  label : string
}.

(** [getStatusBadge]; [None] stands for [null]. *)
Definition getStatusBadge (status : string) : option Badge :=
  if String.eqb status "pending" then
    Some (mkBadge "bg-amber-50 text-amber-700 border-amber-200" Clock "Pending")
  else if String.eqb status "approved" then
    Some (mkBadge "bg-emerald-50 text-emerald-700 border-emerald-200" CheckCircle2 "Approved")
  else if String.eqb status "denied" then
    Some (mkBadge "bg-rose-50 text-rose-700 border-rose-200" XCircle "Denied")
  else if String.eqb status "expired" then
    Some (mkBadge "bg-gray-50 text-gray-700 border-gray-200" AlertCircle "Expired")
  else None.

(** The number in the label of the Incoming tab:
    [incomingRequests.filter((r) => r.status === 'pending').length]. *)
Definition incoming_tab_count (st : State) : nat :=
  length (JS.filter (λ r, String.eqb (perm_status r) "pending") (incomingRequests st)).

(** The documents offered in the Request Access dialog:
    [allDocuments.filter((doc) =>
       doc.filename.toLowerCase().includes(searchQuery.toLowerCase()) &&
       !outgoingRequests.some((req) =>
          req.document_id === doc.id && req.status === 'pending'))]. *)
Definition availableDocuments `{!JS.Engine} (st : State) (searchQuery : string)
  : list Document :=
  JS.filter
    (λ doc,
       JS.includes (JS.toLowerCase (filename doc)) (JS.toLowerCase searchQuery) &&
       negb (existsb
               (λ req, String.eqb (document_id req) (doc_id doc) &&
                       String.eqb (perm_status req) "pending")
               (outgoingRequests st)))
    (allDocuments st).

(** What the page shows of the requests: the number on the Incoming tab
    and the status badge of every incoming and outgoing request. *)
Definition view (st : State)
  : nat * list (Permission * option Badge) * list (Permission * option Badge) :=
  (incoming_tab_count st,
   map (λ r, (r, getStatusBadge (perm_status r))) (incomingRequests st),
   map (λ r, (r, getStatusBadge (perm_status r))) (outgoingRequests st)).

End AccessRequests.

(** ** pages/SharedDocuments.jsx *)

Module SharedDocuments.

Record State : Type := mkState {
  documents : list Document;
  permissions : gmap string Permission;
  isLoading : bool;
  toasts : list string
}.

Definition initial : State := mkState [] ∅ true [].

(** The map of [document_id] to permission details:
    [permsRes.data.filter((p) => p.status === 'approved')
       .forEach((p) => { permMap[p.document_id] = p; })].
    The result holds the own properties of the object.  An approved
    record filed under the id [__proto__] adds none and replaces the
    prototype of the object; what the object inherits is that of
    [JS.object_get] as long as there is no such record. *)
Definition permMap (perms : list Permission) : gmap string Permission :=
  fold_left (λ m p, JS.object_set m (document_id p) p)
    (JS.filter (λ p, String.eqb (perm_status p) "approved") perms) ∅.

Definition loadSharedDocuments (st : State)
    (docsRes : Answer (list Document))
    (permsRes : Answer (list Permission)) : State :=
  match docsRes, permsRes with
  | Ok docs, Ok perms => mkState docs (permMap perms) false (toasts st)
  | _, _ =>
      mkState (documents st) (permissions st) false
        (toasts st ++ ["Failed to load shared documents"])
  end.

(** [a < b] on the time values of two dates; a date built from text that
    does not parse holds [NaN]. *)
Definition date_lt (a b : JS.num) : bool :=
  match a, b with
  | JS.Int x, JS.Int y => (x <? y)%Z
  | _, _ => false
  end.

Section Render.

(** [new Date(text)]: the time value in milliseconds, [NaN] when the text
    is not a date. *)
Variable Date_parse : string → JS.num.

(** Truthiness of
    [perm?.expires_at && new Date(perm.expires_at) < new Date()]. *)
Definition isExpired (b : Browser) (perm : option Permission) : bool :=
  match perm with
  | None => false
  | Some p =>
      match expires_at p with
      | JS.Val e => JS.truthy_str e && date_lt (Date_parse e) (JS.Int (clock b))
      | _ => false
      end
  end.

(** [format(new Date(text), pattern)] of date-fns.  The text it produces
    is not modelled, [text] stands for it; on a date that does not parse,
    [format] throws a RangeError, for which [None] stands. *)
Definition format (text : string) : option string :=
  match Date_parse text with
  | JS.NaN => None
  | JS.Int _ => Some text
  end.

(** The expiry chip of a card; the text after "Until" is produced by
    [format] from [expires_at]. *)
Inductive ExpiryChip : Type :=
  | ChipExpired
  | ChipUntil (expires : string).

Record Card : Type := mkCard {
  card_doc : Document;
  permission_chip : option (JS.maybe string);
  expiry_chip : option ExpiryChip;
  uploaded : string;
  download_button : bool
}.

(** The body of [documents.map((doc) => ...)]; [None] stands for the
    RangeError thrown by a [format] call, which ends the render of the
    page. *)
Definition render_card (b : Browser) (st : State) (doc : Document) : option Card :=
  let perm := JS.object_get (permissions st) (doc_id doc) in
  let record := match perm with JS.Own p => Some p | _ => None end in
  let expired := isExpired b record in
  chip ←
    match record with
    | Some p =>
        match expires_at p with
        | JS.Val e =>
            if JS.truthy_str e then
              if expired then Some (Some ChipExpired)
              else until ← format e; Some (Some (ChipUntil until))
            else Some None
        | _ => Some None
        end
    | None => Some None
    end;
  uploaded_text ← format (uploaded_at doc);
  Some
    (mkCard doc
       (match perm with
        | JS.Own p => Some (JS.Val (permission_type p))
        | JS.Inherited => Some JS.Undefined
        | JS.Absent => None
        end)
       chip uploaded_text
       (match record with
        | Some p =>
            (String.eqb (permission_type p) "download" ||
             String.eqb (permission_type p) "edit") && negb expired
        | None => false
        end)).

(** What the page shows: the spinner while loading, a notice when there
    is no document, else the grid of cards. *)
Inductive Page : Type :=
  | Spinner
  | NoDocuments
  | Grid (cards : list Card).

Definition render (b : Browser) (st : State) : option Page :=
  if isLoading st then Some Spinner
  else
    match documents st with
    | [] => Some NoDocuments
    | _ :: _ => Grid <$> mapM (render_card b st) (documents st)
    end.

End Render.

End SharedDocuments.

(** ** App.js *)

Module App.

Record State : Type := mkState {
  isAuthenticated : bool;
  isLoading : bool
}.

(** [useState] initial values. *)
Definition initial : State := mkState false true.

Definition setIsAuthenticated (st : State) (v : bool) : State :=
  mkState v (isLoading st).

(** The effect run on mount:
    [const token = localStorage.getItem('token');
     if (token) setIsAuthenticated(true);
     setIsLoading(false)]. *)
Definition on_mount (b : Browser) (st : State) : State :=
  let st :=
    match getItem b "token" with
    | Some t => if JS.truthy_str t then setIsAuthenticated st true else st
    | None => st
    end in
  mkState (isAuthenticated st) false.

(** The pages wrapped in [Layout]. *)
Inductive Page : Type :=
  | DashboardPage
  | MyDocumentsPage
  | SharedDocumentsPage
  | AccessRequestsPage
  | ActivityLogsPage
  | ProfilePage.

(** The locations written in the route table. *)
Inductive Location : Type :=
  | Root
  | At (p : Page).

Definition path_of (l : Location) : string :=
  match l with
  | Root => "/"
  | At DashboardPage => "/dashboard"
  | At MyDocumentsPage => "/documents"
  | At SharedDocumentsPage => "/shared"
  | At AccessRequestsPage => "/requests"
  | At ActivityLogsPage => "/activity"
  | At ProfilePage => "/profile"
  end.

Definition locations : list Location :=
  [Root; At DashboardPage; At MyDocumentsPage; At SharedDocumentsPage;
   At AccessRequestsPage; At ActivityLogsPage; At ProfilePage].

(** The location whose path is written exactly as [pathname], if any. *)
Definition location_of (pathname : string) : option Location :=
  find (λ l, String.eqb (path_of l) pathname) locations.

(** What the component renders. *)
Inductive Element : Type :=
  | Spinner
  | Landing
  | InLayout (p : Page)
  | Navigate (to : Location).

(** The element of the route at a location. *)
Definition route (st : State) (l : Location) : Element :=
  if isLoading st then Spinner
  else
    match l with
    | Root => if isAuthenticated st then Navigate (At DashboardPage) else Landing
    | At p => if isAuthenticated st then InLayout p else Navigate Root
    end.

(** Following [Navigate] elements, at most [fuel] times. *)
Fixpoint settle (fuel : nat) (st : State) (l : Location) : option (Location * Element) :=
  match route st l with
  | Navigate to =>
      match fuel with
      | O => None
      | S n => settle n st to
      end
  | e => Some (l, e)
  end.

End App.

(** ** pages/LandingPage.jsx *)

Module LandingPage.

Record LoginData : Type := mkLoginData {
  email : string;
  password : string
}.

Record State : Type := mkState {
  loginData : LoginData;
  isLoading : bool;
  toasts : list Toast
}.

(** The body of a successful login answer. *)
Record TokenResponse : Type := mkTokenResponse {
  access_token : JS.maybe string
}.

Section Login.

(** [error.response?.data?.detail]. *)
Variable detail : Api.AxiosError → JS.maybe string.

(** [handleLogin], given the answer to [authAPI.login].  A failed answer
    has passed through the response interceptor before the [catch] block
    sees it. *)
Definition handleLogin (b : Browser) (app : App.State) (st : State)
    (answer : Answer TokenResponse) : Browser * App.State * State :=
  let request :=
    Api.outgoing b (Api.AuthLogin (email (loginData st)) (password (loginData st))) in
  let b := run_effect b (Send request) in
  match answer with
  | Ok data =>
      (mkBrowser (<["token" := JS.string_of (access_token data)]> (localStorage b))
         (location_href b) (clock b) (sent b),
       App.setIsAuthenticated app true,
       mkState (loginData st) false (toasts st ++ [ToastSuccess "Welcome back!"]))
  | Failed error =>
      (Api.after_rejected b error,
       app,
       mkState (loginData st) false
         (toasts st ++ [ToastError (JS.or_default (detail error) "Login failed")]))
  end.

End Login.

End LandingPage.

(** ** components/Layout.js *)

Module Layout.

(** The entries of the sidebar: name and path. *)
Definition navigation : list (string * string) :=
  [("Dashboard", "/dashboard");
   ("My Documents", "/documents");
   ("Shared with Me", "/shared");
   ("Access Requests", "/requests");
   ("Activity Logs", "/activity");
   ("Profile", "/profile")].

(** [location.pathname === item.path]. *)
Definition isActive (pathname : string) (item : string * string) : bool :=
  String.eqb pathname (snd item).

(** [handleLogout]:
    [localStorage.removeItem('token'); setIsAuthenticated(false); navigate('/')]. *)
Definition handleLogout (b : Browser) (app : App.State) : Browser * App.State :=
  (run_effects b [RemoveItem "token"; SetHref "/"],
   App.setIsAuthenticated app false).

End Layout.

(** ** Vocabulary of the properties

    Notions in which the properties below are phrased; none of them is
    used by the model of the code. *)

Module Spec.

(** A text is ASCII when all its bytes are below 128. *)
Fixpoint is_ascii (s : string) : bool :=
  match s with
  | EmptyString => true
  | String c s' => (N_of_ascii c <? 128)%N && is_ascii s'
  end.

Definition ascii_text (s : string) : Prop := is_ascii s = true.

(** What is assumed of the engine: on ASCII text, [toLowerCase] maps the
    letters A to Z to a to z and keeps every other character. *)
Definition lowers_ascii (E : JS.Engine) : Prop :=
  ∀ s, ascii_text s → JS.toLowerCase s = JS.ascii_toLowerCase s.

(** Two characters are the same letter up to case: they are equal, or
    one is the [i]-th capital letter (code 65 + i) and the other the
    [i]-th small letter (code 97 + i). *)
Definition same_letter (a b : ascii) : Prop :=
  a = b ∨
  ∃ i : N, (i < 26)%N ∧
    ((N_of_ascii a = 65 + i ∧ N_of_ascii b = 97 + i)%N ∨
     (N_of_ascii a = 97 + i ∧ N_of_ascii b = 65 + i)%N).

(** Two strings are equal up to the case of their letters. *)
Inductive eq_nocase : string → string → Prop :=
  | eq_nocase_nil : eq_nocase "" ""
  | eq_nocase_cons a b s t :
      same_letter a b → eq_nocase s t → eq_nocase (String a s) (String b t).

(** [q] occurs in [s] as a substring, case-insensitively. *)
Definition contains_nocase (s q : string) : Prop :=
  ∃ pre mid post, s = pre +:+ mid +:+ post ∧ eq_nocase mid q.

(** [r] consists of exactly the elements of [l] that satisfy [P], in the
    order and with the multiplicity they have in [l]. *)
Inductive Selects {A} (P : A → Prop) : list A → list A → Prop :=
  | Selects_nil : Selects P [] []
  | Selects_keep x l r : P x → Selects P l r → Selects P (x :: l) (x :: r)
  | Selects_skip x l r : ¬ P x → Selects P l r → Selects P (x :: l) r.

(** A document is selected by a search query and a category filter. *)
Definition doc_selected (q cat : string) (d : Document) : Prop :=
  (q ≠ "" →
     contains_nocase (filename d) q ∨
     ∃ desc, description d = JS.Val desc ∧ contains_nocase desc q) ∧
  (cat ≠ "all" → category d = JS.Val cat).

(** The searched texts of a document, of a log record, are ASCII. *)
Definition ascii_document (d : Document) : Prop :=
  ascii_text (filename d) ∧ ∀ desc, description d = JS.Val desc → ascii_text desc.

Definition ascii_log (l : ActivityLog) : Prop :=
  ascii_text (document_name l) ∧ ascii_text (user_name l).

(** An activity log record is selected by a search query and an action
    filter. *)
Definition log_selected (q act : string) (l : ActivityLog) : Prop :=
  (q ≠ "" →
     contains_nocase (document_name l) q ∨ contains_nocase (user_name l) q) ∧
  (act ≠ "all" → action l = act).

(** The number of records with a given status. *)
Fixpoint count_status (s : string) (l : list Permission) : nat :=
  match l with
  | [] => 0
  | r :: l' =>
      if decide (perm_status r = s) then S (count_status s l')
      else count_status s l'
  end.

(** [r] keeps, of the documents of [l], those whose id is neither in
    [seen] nor carried by an earlier document of [l]. *)
Inductive FirstOccurrences : list string → list Document → list Document → Prop :=
  | FirstOcc_nil seen : FirstOccurrences seen [] []
  | FirstOcc_keep seen x l r :
      doc_id x ∉ seen →
      FirstOccurrences (doc_id x :: seen) l r →
      FirstOccurrences seen (x :: l) (x :: r)
  | FirstOcc_drop seen x l r :
      doc_id x ∈ seen →
      FirstOccurrences seen l r →
      FirstOccurrences seen (x :: l) r.

(** The first document of a list with a given id. *)
Fixpoint first_with_id (k : string) (l : list Document) : option Document :=
  match l with
  | [] => None
  | d :: l' => if decide (doc_id d = k) then Some d else first_with_id k l'
  end.

(** The text of a duration of [s] seconds: hours and minutes, else
    minutes, else seconds. *)
Definition duration_text (s : Z) : string :=
  let h := (s `div` 3600)%Z in
  let m := ((s `mod` 3600) `div` 60)%Z in
  if decide (0 < h)%Z then pretty h +:+ "h " +:+ pretty m +:+ "m"
  else if decide (0 < m)%Z then pretty m +:+ "m"
  else pretty s +:+ "s".

(** A permission is expired at instant [now]: it has an [expires_at], and
    that instant is earlier than [now]. *)
Definition expired (Date_parse : string → JS.num) (now : Z) (p : Permission) : Prop :=
  ∃ e t, expires_at p = JS.Val e ∧ Date_parse e = JS.Int t ∧ (t < now)%Z.

(** A text is a valid date: [new Date(text)] holds an instant. *)
Definition valid_date (Date_parse : string → JS.num) (text : string) : Prop :=
  ∃ t, Date_parse text = JS.Int t.

(** A [Date_parse] that knows two instants, the epoch and one second
    after it, for the worked inputs. *)
Definition sample_Date_parse (text : string) : JS.num :=
  if String.eqb text "1970-01-01T00:00:00.000Z" then JS.Int 0
  else if String.eqb text "1970-01-01T00:00:01.000Z" then JS.Int 1000
  else JS.NaN.

(** The card of a document can be rendered: its uploaded_at is a valid
    date, and so is the expires_at of its record in the permission map,
    where the record has a non-empty one. *)
Definition card_renders (Date_parse : string → JS.num)
    (perms : gmap string Permission) (d : Document) : Prop :=
  valid_date Date_parse (uploaded_at d) ∧
  ∀ p e, JS.object_get perms (doc_id d) = JS.Own p →
         expires_at p = JS.Val e → e ≠ "" → valid_date Date_parse e.

(** The page shows a Download button for a document: the page is
    rendered, and the card of the document holds the button. *)
Definition download_rendered (Date_parse : string → JS.num) (b : Browser)
    (st : SharedDocuments.State) (doc : Document) : Prop :=
  ∃ cards c, SharedDocuments.render Date_parse b st = Some (SharedDocuments.Grid cards) ∧
             c ∈ cards ∧ SharedDocuments.card_doc c = doc ∧
             SharedDocuments.download_button c = true.

(** No approved permission is filed under the id [__proto__]. *)
Definition no_proto_write (perms : list Permission) : Prop :=
  Forall (λ p, perm_status p = "approved" → document_id p ≠ "__proto__") perms.

(** The seconds a log record counts for: its duration, nothing when the
    duration is absent. *)
Definition seconds_of (log : ActivityLog) : Z :=
  match duration_seconds log with
  | JS.Val z => z
  | _ => 0%Z
  end.

Definition total_seconds (logs : list ActivityLog) : Z :=
  foldr (λ log acc, (seconds_of log + acc)%Z) 0%Z logs.

(** The durations of the records are non-negative and add up to a safe
    integer, at most 2^53 - 1: every sum of some of them is then an integer
    that a JavaScript number holds exactly. *)
Definition safe_durations (logs : list ActivityLog) : Prop :=
  Forall (λ log, (0 ≤ seconds_of log)%Z) logs ∧
  (total_seconds logs ≤ 9007199254740991)%Z.

(** A duration is zero or absent. *)
Definition zero_or_absent (v : JS.maybe Z) : Prop :=
  v = JS.Val 0%Z ∨ v = JS.Undefined ∨ v = JS.Null.

(** A bearer token is held in storage: a non-empty string under the key
    [token]. *)
Definition token_present (b : Browser) (t : string) : Prop :=
  getItem b "token" = Some t ∧ t ≠ "".

End Spec.

(** * Properties *)

(** ** Strings *)

Section StringFacts.

Lemma startsWith_spec s p :
  JS.startsWith s p = true ↔ ∃ post, s = p +:+ post.
Proof.
  revert s. induction p as [|a p IH]; intros s; simpl.
  - split; [intros _; exists s; reflexivity | done].
  - destruct s as [|b s]; simpl.
    + split; [done | intros [post H]; discriminate].
    + rewrite andb_true_iff, Ascii.eqb_eq, IH. split.
      * intros [-> [post ->]]. by exists post.
      * intros [post H]. injection H as -> ->. eauto.
Qed.

Lemma includes_spec s q :
  JS.includes s q = true ↔ ∃ pre post, s = pre +:+ q +:+ post.
Proof.
  induction s as [|c s IH]; simpl; rewrite orb_true_iff, startsWith_spec.
  - split.
    + intros [[post H] | ?]; [|done]. by exists "", post.
    + intros [pre [post H]]. left. destruct pre; [by exists post | discriminate].
  - rewrite IH. split.
    + intros [[post H] | [pre [post H]]].
      * by exists "", post.
      * exists (String c pre), post. simpl. by rewrite H.
    + intros [pre [post H]]. destruct pre as [|c' pre]; simpl in H.
      * left. by exists post.
      * right. injection H as -> ->. by exists pre, post.
Qed.

Lemma toLowerCase_app a b :
  JS.ascii_toLowerCase (a +:+ b) = JS.ascii_toLowerCase a +:+ JS.ascii_toLowerCase b.
Proof. induction a as [|c a IH]; simpl; [done | by rewrite IH]. Qed.

Lemma toLowerCase_split s x y :
  JS.ascii_toLowerCase s = x +:+ y →
  ∃ s1 s2, s = s1 +:+ s2 ∧ JS.ascii_toLowerCase s1 = x ∧ JS.ascii_toLowerCase s2 = y.
Proof.
  revert s. induction x as [|c x IH]; intros s H; simpl in H.
  - by exists "", s.
  - destruct s as [|d s]; simpl in H; [discriminate|].
    injection H as Hc Hs. destruct (IH _ Hs) as (s1 & s2 & -> & H1 & H2).
    exists (String d s1), s2. simpl. by rewrite Hc, H1.
Qed.

Lemma N_of_ascii_inj x y : N_of_ascii x = N_of_ascii y → x = y.
Proof.
  intros H. rewrite <-(ascii_N_embedding x), <-(ascii_N_embedding y).
  by rewrite H.
Qed.

Lemma is_upper_bounds c :
  JS.is_upper c = true ↔ (65 ≤ N_of_ascii c ∧ N_of_ascii c ≤ 90)%N.
Proof.
  unfold JS.is_upper. rewrite andb_true_iff, !N.leb_le. tauto.
Qed.

Lemma N_of_lower_upper c :
  JS.is_upper c = true →
  N_of_ascii (ascii_of_N (N_of_ascii c + 32)) = (N_of_ascii c + 32)%N.
Proof.
  intros H%is_upper_bounds. apply N_ascii_embedding. lia.
Qed.

Lemma is_upper_false_bounds c :
  JS.is_upper c = false → (N_of_ascii c < 65 ∨ 90 < N_of_ascii c)%N.
Proof.
  intros H. destruct (decide (65 ≤ N_of_ascii c ∧ N_of_ascii c ≤ 90)%N) as [Hb|Hb];
    [|lia]. apply is_upper_bounds in Hb. congruence.
Qed.

Lemma lower_char_same_letter a b :
  JS.lower_char a = JS.lower_char b ↔ Spec.same_letter a b.
Proof.
  unfold JS.lower_char, Spec.same_letter.
  destruct (JS.is_upper a) eqn:Ha, (JS.is_upper b) eqn:Hb.
  - pose proof (proj1 (is_upper_bounds a) Ha).
    pose proof (proj1 (is_upper_bounds b) Hb). split.
    + intros H1%(f_equal N_of_ascii). rewrite !N_of_lower_upper in H1 by done.
      left. apply N_of_ascii_inj. lia.
    + intros [-> | (i & Hi & [[? ?]|[? ?]])]; [done | lia | lia].
  - pose proof (proj1 (is_upper_bounds a) Ha).
    pose proof (is_upper_false_bounds b Hb). split.
    + intros H1%(f_equal N_of_ascii). rewrite N_of_lower_upper in H1 by done.
      right. exists (N_of_ascii a - 65)%N. split; [lia|]. left. lia.
    + intros [-> | (i & Hi & [[? ?]|[? ?]])]; [congruence | | lia].
      apply N_of_ascii_inj. rewrite N_of_lower_upper by done. lia.
  - pose proof (proj1 (is_upper_bounds b) Hb).
    pose proof (is_upper_false_bounds a Ha). split.
    + intros H1%(f_equal N_of_ascii). rewrite N_of_lower_upper in H1 by done.
      right. exists (N_of_ascii b - 65)%N. split; [lia|]. right. lia.
    + intros [-> | (i & Hi & [[? ?]|[? ?]])]; [congruence | lia |].
      apply N_of_ascii_inj. rewrite N_of_lower_upper by done. lia.
  - pose proof (is_upper_false_bounds a Ha).
    pose proof (is_upper_false_bounds b Hb).
    split; [by left | intros [-> | (i & Hi & [[? ?]|[? ?]])]; [done | lia | lia]].
Qed.

Lemma eq_nocase_toLowerCase s t :
  Spec.eq_nocase s t ↔ JS.ascii_toLowerCase s = JS.ascii_toLowerCase t.
Proof.
  split.
  - induction 1 as [|a b s t Hab _ IH]; simpl; [done|].
    apply lower_char_same_letter in Hab. by rewrite Hab, IH.
  - revert t. induction s as [|a s IH]; intros [|b t] H; simpl in H;
      try discriminate; [constructor|].
    injection H as Hc Hs. constructor; [by apply lower_char_same_letter | eauto].
Qed.

(** The search test of the pages decides case-insensitive containment. *)
Lemma includes_lower_spec s q :
  JS.includes (JS.ascii_toLowerCase s) (JS.ascii_toLowerCase q) = true ↔
  Spec.contains_nocase s q.
Proof.
  rewrite includes_spec. unfold Spec.contains_nocase. split.
  - intros (pre & post & H).
    apply toLowerCase_split in H as (s1 & s23 & -> & _ & H).
    apply toLowerCase_split in H as (s2 & s3 & -> & H & _).
    exists s1, s2, s3. split; [done | by apply eq_nocase_toLowerCase].
  - intros (pre & mid & post & -> & H%eq_nocase_toLowerCase).
    exists (JS.ascii_toLowerCase pre), (JS.ascii_toLowerCase post).
    by rewrite !toLowerCase_app, H.
Qed.

Lemma truthy_str_spec s : JS.truthy_str s = true ↔ s ≠ "".
Proof. destruct s; simpl; split; congruence. Qed.


Lemma is_ascii_app a b :
  Spec.ascii_text (a +:+ b) ↔ Spec.ascii_text a ∧ Spec.ascii_text b.
Proof.
  unfold Spec.ascii_text. induction a as [|c a IH]; [cbn; tauto|].
  change (Spec.is_ascii (String c a +:+ b))
    with ((N_of_ascii c <? 128)%N && Spec.is_ascii (a +:+ b)).
  cbn [Spec.is_ascii]. rewrite !andb_true_iff, IH. tauto.
Qed.

(** Under the assumption on the engine, the search test of the pages
    decides case-insensitive containment of ASCII texts. *)
Lemma includes_engine_spec `{E : !JS.Engine} s q :
  Spec.lowers_ascii E → Spec.ascii_text s → Spec.ascii_text q →
  JS.includes (JS.toLowerCase s) (JS.toLowerCase q) = true ↔
  Spec.contains_nocase s q.
Proof.
  intros HE Hs Hq. rewrite (HE s Hs), (HE q Hq). apply includes_lower_spec.
Qed.

End StringFacts.

(** ** Filtering *)

Section Filtering.

Context {A : Type}.
Implicit Types (P Q : A → Prop) (f : A → bool) (l r : list A).

Lemma filter_Selects f P l :
  (∀ x, f x = true ↔ P x) → Spec.Selects P l (JS.filter f l).
Proof.
  intros Hf. induction l as [|x l IH]; simpl; [constructor|].
  destruct (f x) eqn:Hx.
  - apply Spec.Selects_keep; [by apply Hf | done].
  - apply Spec.Selects_skip; [|done]. rewrite <-Hf. congruence.
Qed.

Lemma Selects_all P l : (∀ x, P x) → Spec.Selects P l l.
Proof. intros HP. induction l; constructor; auto. Qed.

Lemma filter_if_Selects (c : bool) f P l :
  (c = true → ∀ x, f x = true ↔ P x) →
  (c = false → ∀ x, P x) →
  Spec.Selects P l (if c then JS.filter f l else l).
Proof.
  destruct c; intros H1 H2; [apply filter_Selects | apply Selects_all]; auto.
Qed.

Lemma Selects_compose P Q l r r' :
  Spec.Selects P l r → Spec.Selects Q r r' →
  Spec.Selects (λ x, P x ∧ Q x) l r'.
Proof.
  intros H. revert r'. induction H as [|x l r HP _ IH|x l r HP _ IH]; intros r' HQ.
  - inversion HQ; subst. constructor.
  - inversion HQ; subst.
    + apply Spec.Selects_keep; auto.
    + apply Spec.Selects_skip; [tauto | auto].
  - apply Spec.Selects_skip; [tauto | auto].
Qed.

Lemma Selects_elem_of P l r x :
  Spec.Selects P l r → x ∈ r ↔ x ∈ l ∧ P x.
Proof.
  induction 1 as [|y l r HP _ IH|y l r HP _ IH].
  - split; [by intros ?%elem_of_nil | by intros [?%elem_of_nil _]].
  - rewrite !elem_of_cons, IH. split; [intros [->|[??]]; auto | tauto].
  - rewrite elem_of_cons, IH. split; [tauto | intros [[->|?] ?]; tauto].
Qed.

Lemma Selects_unique P l r1 r2 :
  Spec.Selects P l r1 → Spec.Selects P l r2 → r1 = r2.
Proof.
  intros H. revert r2.
  induction H as [|x l r HP _ IH|x l r HP _ IH]; intros r2 H2;
    inversion H2; subst; try done; f_equal; auto.
Qed.

End Filtering.

Lemma filter_length_count (s : string) (ps : list Permission) :
  length (JS.filter (λ x, String.eqb (perm_status x) s) ps) = Spec.count_status s ps.
Proof.
  induction ps as [|x ps IH]; simpl; [done|].
  destruct (String.eqb_spec (perm_status x) s); case_decide; simpl; congruence.
Qed.

Lemma strict_eq_spec v s : strict_eq v s = true ↔ v = JS.Val s.
Proof.
  destruct v as [| |x]; simpl; [split; congruence..|].
  rewrite String.eqb_eq. split; congruence.
Qed.

Lemma filter_Selects_Forall {A} (f : A → bool) (P : A → Prop) (l : list A) :
  Forall (λ x, f x = true ↔ P x) l → Spec.Selects P l (JS.filter f l).
Proof.
  induction 1 as [|x l Hx _ IH]; simpl; [constructor|].
  destruct (f x) eqn:Hfx.
  - apply Spec.Selects_keep; [by apply Hx | done].
  - apply Spec.Selects_skip; [|done]. rewrite <-Hx. congruence.
Qed.

Lemma filter_if_Selects_Forall {A} (c : bool) (f : A → bool) (P : A → Prop)
    (l : list A) :
  (c = true → Forall (λ x, f x = true ↔ P x) l) →
  (c = false → ∀ x, P x) →
  Spec.Selects P l (if c then JS.filter f l else l).
Proof.
  destruct c; intros H1 H2; [apply filter_Selects_Forall | apply Selects_all]; auto.
Qed.

Section SearchExact.

Context `{E : !JS.Engine}.
Hypothesis HE : Spec.lowers_ascii E.

Lemma doc_search_callback_spec q d :
  Spec.ascii_text q → Spec.ascii_document d →
  MyDocuments.search_callback q d = true ↔
  Spec.contains_nocase (filename d) q ∨
  ∃ desc, description d = JS.Val desc ∧ Spec.contains_nocase desc q.
Proof.
  intros Hq [Hf Hd]. unfold MyDocuments.search_callback.
  rewrite orb_true_iff, (includes_engine_spec _ _ HE Hf Hq).
  destruct (description d) as [| |desc].
  - split; [intros [?|?]; [by left | done] | intros [?|(? & ? & _)]; [by left | done]].
  - split; [intros [?|?]; [by left | done] | intros [?|(? & ? & _)]; [by left | done]].
  - rewrite (includes_engine_spec _ _ HE (Hd desc eq_refl) Hq). split.
    + intros [?|?]; [by left | right; eauto].
    + intros [?|(? & [= <-] & ?)]; [by left | by right].
Qed.

Lemma log_search_callback_spec q l :
  Spec.ascii_text q → Spec.ascii_log l →
  ActivityLogs.search_callback q l = true ↔
  Spec.contains_nocase (document_name l) q ∨ Spec.contains_nocase (user_name l) q.
Proof.
  intros Hq [Hd Hu]. unfold ActivityLogs.search_callback.
  by rewrite orb_true_iff, (includes_engine_spec _ _ HE Hd Hq),
    (includes_engine_spec _ _ HE Hu Hq).
Qed.

Lemma filteredDocs_ascii (st : MyDocuments.State) :
  Spec.ascii_text (MyDocuments.searchQuery st) →
  Forall Spec.ascii_document (MyDocuments.documents st) →
  Spec.Selects
    (Spec.doc_selected (MyDocuments.searchQuery st) (MyDocuments.categoryFilter st))
    (MyDocuments.documents st)
    (MyDocuments.filteredDocs (MyDocuments.filterDocuments st)).
Proof.
  intros Hq Hdocs.
  unfold MyDocuments.filterDocuments, MyDocuments.setFilteredDocs.
  cbn [MyDocuments.filteredDocs].
  set (q := MyDocuments.searchQuery st) in *.
  set (cat := MyDocuments.categoryFilter st).
  eapply Selects_compose with
    (P := λ d, q ≠ "" → Spec.contains_nocase (filename d) q ∨
               ∃ desc, description d = JS.Val desc ∧ Spec.contains_nocase desc q)
    (Q := λ d, cat ≠ "all" → category d = JS.Val cat).
  - apply filter_if_Selects_Forall with
      (c := JS.truthy_str q) (f := MyDocuments.search_callback q).
    + intros Hne%truthy_str_spec. eapply Forall_impl; [exact Hdocs|].
      intros d Hd. cbn. rewrite (doc_search_callback_spec q d Hq Hd). tauto.
    + intros Hempty d Hne%truthy_str_spec. congruence.
  - apply filter_if_Selects with (f := λ doc, strict_eq (category doc) cat).
    + intros Hc%negb_true_iff%String.eqb_neq d. rewrite strict_eq_spec. tauto.
    + intros Hc%negb_false_iff%String.eqb_eq d. tauto.
Qed.

Lemma filteredLogs_ascii (st : ActivityLogs.State) :
  Spec.ascii_text (ActivityLogs.searchQuery st) →
  Forall Spec.ascii_log (ActivityLogs.logs st) →
  Spec.Selects
    (Spec.log_selected (ActivityLogs.searchQuery st) (ActivityLogs.actionFilter st))
    (ActivityLogs.logs st)
    (ActivityLogs.filteredLogs (ActivityLogs.filterLogs st)).
Proof.
  intros Hq Hlogs.
  unfold ActivityLogs.filterLogs, ActivityLogs.setFilteredLogs.
  cbn [ActivityLogs.filteredLogs].
  set (q := ActivityLogs.searchQuery st) in *.
  set (act := ActivityLogs.actionFilter st).
  eapply Selects_compose with
    (P := λ l, q ≠ "" → Spec.contains_nocase (document_name l) q ∨
               Spec.contains_nocase (user_name l) q)
    (Q := λ l, act ≠ "all" → action l = act).
  - apply filter_if_Selects_Forall with
      (c := JS.truthy_str q) (f := ActivityLogs.search_callback q).
    + intros Hne%truthy_str_spec. eapply Forall_impl; [exact Hlogs|].
      intros l Hl. cbn. rewrite (log_search_callback_spec q l Hq Hl). tauto.
    + intros Hempty l Hne%truthy_str_spec. congruence.
  - apply filter_if_Selects with (f := λ log, String.eqb (action log) act).
    + intros Hc%negb_true_iff%String.eqb_neq l. rewrite String.eqb_eq. tauto.
    + intros Hc%negb_false_iff%String.eqb_eq l. tauto.
Qed.



End SearchExact.

Lemma ascii_engine_lowers_ascii : Spec.lowers_ascii JS.ascii_engine.
Proof. intros s _. reflexivity. Qed.



(** Whatever else the engine does, the two values that ECMAScript gives
    for the final sigma make the search miss a filename that contains the
    query. *)
Lemma final_sigma_missed `{!JS.Engine} (d : Document) (l : ActivityLog) :
  JS.toLowerCase "ΑΣ" = "ας" →
  JS.toLowerCase "Σ" = "σ" →
  (filename d = "ΑΣ" → (∀ desc, description d ≠ JS.Val desc) →
   MyDocuments.search_callback "Σ" d = false) ∧
  (document_name l = "ΑΣ" → user_name l = "ΑΣ" →
   ActivityLogs.search_callback "Σ" l = false).
Proof.
  intros H1 H2. split.
  - intros Hf Hd. unfold MyDocuments.search_callback. rewrite Hf, H1, H2.
    destruct (description d) as [| |desc]; [done..|]. by destruct (Hd desc).
  - intros Hd Hu. unfold ActivityLogs.search_callback. by rewrite Hd, Hu, H1, H2.
Qed.



(** ** Counting pending requests *)

(** C8: the Pending Requests statistic of the Dashboard and the number on
    the Incoming tab of the Access Requests page both equal the number of
    records of the incoming list whose status is 'pending'. *)
Theorem pending_counts_agree
    (sd : Dashboard.State) (sa : AccessRequests.State)
    (s : WeeklySummary) (lg : list ActivityLog) (my sh : list Document)
    (incoming outgoing : list Permission) :
  Dashboard.pendingRequests
    (Dashboard.stats
       (Dashboard.loadDashboardData sd (Ok s) (Ok lg) (Ok my) (Ok sh) (Ok incoming)))
    = Spec.count_status "pending" incoming ∧
  AccessRequests.incoming_tab_count
    (AccessRequests.loadRequests sa (Ok incoming) (Ok outgoing))
    = Spec.count_status "pending" incoming ∧
  AccessRequests.incoming_tab_count sa
    = Spec.count_status "pending" (AccessRequests.incomingRequests sa).
Proof.
  unfold AccessRequests.incoming_tab_count; cbn [Dashboard.loadDashboardData
    Dashboard.stats Dashboard.pendingRequests AccessRequests.loadRequests
    AccessRequests.incomingRequests].
  by rewrite !filter_length_count.
Qed.

(** ** Merging the owned and the shared documents *)

Section FindIndex.

Context {A : Type}.
Implicit Types (p : A → bool) (l pre : list A) (i : Z).

Lemma findIndex_from_skip p pre l i :
  (∀ x, x ∈ pre → p x = false) →
  JS.findIndex_from p (pre ++ l) i = JS.findIndex_from p l (i + Z.of_nat (length pre))%Z.
Proof.
  revert i. induction pre as [|y pre IH]; intros i Hpre; simpl.
  - f_equal. lia.
  - rewrite (Hpre y) by left. rewrite IH.
    + f_equal. lia.
    + intros x Hx. apply Hpre. by right.
Qed.

Lemma findIndex_from_hit p pre l i x :
  x ∈ pre → p x = true →
  (i ≤ JS.findIndex_from p (pre ++ l) i < i + Z.of_nat (length pre))%Z.
Proof.
  revert i. induction pre as [|y pre IH]; intros i Hx Hp.
  - by apply elem_of_nil in Hx.
  - simpl. destruct (p y) eqn:Hy; [lia|].
    apply elem_of_cons in Hx as [->|Hx]; [congruence|].
    specialize (IH (i + 1)%Z Hx Hp). lia.
Qed.

End FindIndex.

Lemma first_occurrence_spec pre x l :
  AccessRequests.first_occurrence x (Z.of_nat (length pre)) (pre ++ x :: l) = true ↔
  doc_id x ∉ doc_id <$> pre.
Proof.
  unfold AccessRequests.first_occurrence, JS.findIndex.
  rewrite Z.eqb_eq. split.
  - intros Hi (d & Hd & Hin)%list_elem_of_fmap.
    pose proof (findIndex_from_hit
      (λ d, String.eqb (doc_id d) (doc_id x)) pre (x :: l) 0 d Hin) as Hhit.
    simpl in Hhit. rewrite <-Hd, String.eqb_refl in Hhit.
    specialize (Hhit eq_refl). lia.
  - intros Hnot. rewrite findIndex_from_skip.
    + simpl. rewrite String.eqb_refl. lia.
    + intros d Hd. apply String.eqb_neq. intros Heq. apply Hnot.
      apply list_elem_of_fmap. eauto.
Qed.

Lemma FirstOccurrences_equiv seen seen' l r :
  (∀ k, k ∈ seen ↔ k ∈ seen') →
  Spec.FirstOccurrences seen l r → Spec.FirstOccurrences seen' l r.
Proof.
  intros Heq H. revert seen' Heq.
  induction H as [seen|seen x l r Hx _ IH|seen x l r Hx _ IH]; intros seen' Heq.
  - constructor.
  - apply Spec.FirstOcc_keep; [by rewrite <-Heq|].
    apply IH. intros k. rewrite !elem_of_cons, Heq. tauto.
  - apply Spec.FirstOcc_drop; [by rewrite <-Heq | by apply IH].
Qed.

Lemma filter_from_FirstOccurrences l pre :
  Spec.FirstOccurrences (doc_id <$> pre) l
    (JS.filter_from AccessRequests.first_occurrence (pre ++ l) l (Z.of_nat (length pre))).
Proof.
  revert pre. induction l as [|x l IH]; intros pre; simpl; [constructor|].
  specialize (IH (pre ++ [x])).
  rewrite <-app_assoc, length_app in IH. simpl in IH.
  replace (Z.of_nat (length pre + 1)) with (Z.of_nat (length pre) + 1)%Z in IH by lia.
  destruct (AccessRequests.first_occurrence x (Z.of_nat (length pre)) (pre ++ x :: l)) eqn:Hx.
  - apply first_occurrence_spec in Hx. apply Spec.FirstOcc_keep; [done|].
    eapply FirstOccurrences_equiv; [|exact IH].
    intros k. rewrite fmap_app, elem_of_app, elem_of_cons. simpl.
    rewrite list_elem_of_singleton. tauto.
  - apply Spec.FirstOcc_drop.
    + destruct (decide (doc_id x ∈ doc_id <$> pre)) as [|Hn]; [done|].
      apply first_occurrence_spec with (l := l) in Hn. congruence.
    + eapply FirstOccurrences_equiv; [|exact IH].
      intros k. rewrite fmap_app, elem_of_app. simpl.
      rewrite list_elem_of_singleton. split; [|tauto].
      intros [?| ->]; [done|].
      destruct (decide (doc_id x ∈ doc_id <$> pre)) as [|Hn]; [done|].
      apply first_occurrence_spec with (l := l) in Hn. congruence.
Qed.

Lemma FirstOccurrences_fresh seen l r d :
  Spec.FirstOccurrences seen l r → d ∈ r → doc_id d ∉ seen.
Proof.
  induction 1 as [seen|seen x l r Hx _ IH|seen x l r Hx _ IH]; intros Hd.
  - by apply elem_of_nil in Hd.
  - apply elem_of_cons in Hd as [->|Hd]; [done|].
    intros Hin. apply (IH Hd). by right.
  - auto.
Qed.

Lemma FirstOccurrences_NoDup seen l r :
  Spec.FirstOccurrences seen l r → NoDup (doc_id <$> r).
Proof.
  induction 1 as [seen|seen x l r Hx H IH|seen x l r Hx _ IH]; simpl.
  - constructor.
  - constructor; [|done]. intros (d & Hd & Hin)%list_elem_of_fmap.
    apply (FirstOccurrences_fresh _ _ _ _ H Hin). rewrite <-Hd. by left.
  - done.
Qed.

Lemma FirstOccurrences_first seen l r k :
  Spec.FirstOccurrences seen l r → k ∉ seen →
  Spec.first_with_id k r = Spec.first_with_id k l.
Proof.
  induction 1 as [seen|seen x l r Hx _ IH|seen x l r Hx _ IH]; intros Hk; simpl.
  - done.
  - destruct (decide (doc_id x = k)) as [Heq|Hne]; [done|].
    apply IH. rewrite elem_of_cons. intros [Hk'|Hk']; [by subst | done].
  - destruct (decide (doc_id x = k)) as [Heq|Hne]; [congruence | auto].
Qed.

(** C9: after [loadAllDocuments] has merged the owned with the shared
    documents, every document id occurs at most once in [allDocuments]:
    of the concatenation, exactly the first occurrence of each id is
    kept. *)
Theorem loadAllDocuments_unique (st : AccessRequests.State) (my sh : list Document) :
  let all := AccessRequests.allDocuments
               (AccessRequests.loadAllDocuments st (Ok my) (Ok sh)) in
  NoDup (doc_id <$> all) ∧
  Spec.FirstOccurrences [] (my ++ sh) all ∧
  (∀ k, Spec.first_with_id k all = Spec.first_with_id k (my ++ sh)).
Proof.
  intros all.
  assert (H : Spec.FirstOccurrences [] (my ++ sh) all)
    by apply (filter_from_FirstOccurrences (my ++ sh) []).
  split; [by eapply FirstOccurrences_NoDup|]. split; [done|].
  intros k. eapply FirstOccurrences_first; [done | apply not_elem_of_nil].
Qed.

(** ** The interceptors of the API client *)

Lemma config_of_no_authorization (c : Api.Call) :
  headers (Api.config_of c) !! "Authorization" = None.
Proof. by destruct c. Qed.

Lemma request_interceptor_token (b : Browser) (cfg : Config) (t : string) :
  Spec.token_present b t →
  Api.request_interceptor b cfg =
    mkConfig (method cfg) (url cfg)
      (<["Authorization" := "Bearer " +:+ t]> (headers cfg))
      (params cfg) (responseType cfg) (data cfg).
Proof.
  intros [Hget Hne%truthy_str_spec]. unfold Api.request_interceptor.
  by rewrite Hget, Hne.
Qed.

Lemma request_interceptor_no_token (b : Browser) (cfg : Config) :
  (¬ ∃ t, Spec.token_present b t) → Api.request_interceptor b cfg = cfg.
Proof.
  intros Hno. unfold Api.request_interceptor.
  destruct (getItem b "token") as [t|] eqn:Hget; [|done].
  destruct (JS.truthy_str t) eqn:Ht; [|done].
  destruct Hno. exists t. split; [done | by apply truthy_str_spec].
Qed.

Lemma token_present_dec (b : Browser) :
  (∃ t, Spec.token_present b t) ∨ ¬ (∃ t, Spec.token_present b t).
Proof.
  unfold Spec.token_present. destruct (getItem b "token") as [t|].
  - destruct (decide (t = "")) as [->|Hne].
    + right. intros (t' & [= <-] & ?). done.
    + left. eauto.
  - right. intros (t' & ? & _). done.
Qed.

(** C4: every request made through the API client leaves with the header
    [Authorization: Bearer <token>] exactly when a token is held in
    storage; without a token it leaves without that header and as the call
    built it; in both cases nothing but that header is touched. *)
Theorem request_interceptor_bearer (b : Browser) (c : Api.Call) :
  let cfg := Api.config_of c in
  let out := Api.outgoing b c in
  (∀ t, Spec.token_present b t →
        headers out !! "Authorization" = Some ("Bearer " +:+ t)) ∧
  (is_Some (headers out !! "Authorization") ↔ ∃ t, Spec.token_present b t) ∧
  ((¬ ∃ t, Spec.token_present b t) →
        out = cfg ∧ headers out !! "Authorization" = None) ∧
  (∀ k, k ≠ "Authorization" → headers out !! k = headers cfg !! k) ∧
  method out = method cfg ∧ url out = url cfg ∧ params out = params cfg ∧
  responseType out = responseType cfg ∧ data out = data cfg.
Proof.
  intros cfg out. subst out. unfold Api.outgoing. fold cfg.
  assert (Hset : ∀ t, Spec.token_present b t →
            headers (Api.request_interceptor b cfg) !! "Authorization"
            = Some ("Bearer " +:+ t)).
  { intros t Ht. rewrite (request_interceptor_token _ _ _ Ht). simpl.
    apply lookup_insert_eq. }
  assert (Hnone : (¬ ∃ t, Spec.token_present b t) →
            Api.request_interceptor b cfg = cfg ∧
            headers (Api.request_interceptor b cfg) !! "Authorization" = None).
  { intros Hno. rewrite (request_interceptor_no_token _ _ Hno).
    split; [done | apply config_of_no_authorization]. }
  split; [done|]. split.
  { split.
    - intros Hsome. destruct (token_present_dec b) as [|Hno]; [done|].
      destruct (Hnone Hno) as [_ Hn]. rewrite Hn in Hsome. by destruct Hsome.
    - intros [t Ht]. rewrite (Hset t Ht). eauto. }
  split; [done|].
  destruct (token_present_dec b) as [[t Ht]|Hno].
  - rewrite (request_interceptor_token _ _ _ Ht). simpl.
    split; [|done]. intros k Hk. by apply lookup_insert_ne.
  - by rewrite (request_interceptor_no_token _ _ Hno).
Qed.

Lemma is_401_spec (error : Api.AxiosError) :
  Api.is_401 error = true ↔
  ∃ r, Api.response error = Some r ∧ Api.status r = 401%Z.
Proof.
  unfold Api.is_401. destruct (Api.response error) as [r|].
  - rewrite Z.eqb_eq. split; [eauto | by intros (? & [= <-] & ?)].
  - split; [done | by intros (? & ? & _)].
Qed.

(** C2: for a failed response with status 401 the response interceptor
    removes the stored token and sends the browser to '/'; for every other
    failure storage and address are left as they are; in both cases the
    error is handed back to the caller as one rejection and no request is
    issued again. *)
Theorem response_rejected_policy (b : Browser) (error : Api.AxiosError) :
  let b' := Api.after_rejected b error in
  snd (Api.response_rejected error) = Rejected error ∧
  (∀ e c, e ∈ fst (Api.response_rejected error) → e ≠ Send c) ∧
  sent b' = sent b ∧
  (∀ r, Api.response error = Some r → Api.status r = 401%Z →
        getItem b' "token" = None ∧ location_href b' = "/" ∧
        ∀ k, k ≠ "token" → getItem b' k = getItem b k) ∧
  ((¬ ∃ r, Api.response error = Some r ∧ Api.status r = 401%Z) → b' = b).
Proof.
  intros b'. subst b'. unfold Api.after_rejected, Api.response_rejected.
  destruct (Api.is_401 error) eqn:H401; simpl.
  - split; [done|]. split.
    { intros e c He. repeat (apply elem_of_cons in He as [->|He]; [done|]).
      by apply elem_of_nil in He. }
    split; [done|]. split.
    + intros r _ _. unfold getItem; simpl. split; [apply lookup_delete_eq|].
      split; [done|]. intros k Hk. by apply lookup_delete_ne.
    + intros Hno. destruct Hno. by apply is_401_spec.
  - split; [done|]. split; [by intros e c He%elem_of_nil|].
    split; [done|]. split.
    + intros r Hr Hs. assert (Api.is_401 error = true) by (apply is_401_spec; eauto).
      congruence.
    + intros _. by destruct b.
Qed.

(** ** Formatting durations *)

Lemma falsy_spec (v : JS.maybe Z) : JS.falsy v = true ↔ Spec.zero_or_absent v.
Proof.
  unfold Spec.zero_or_absent. destruct v as [| |z]; simpl.
  - split; auto.
  - split; auto.
  - rewrite Z.eqb_eq. split; [intros ->; auto | intros [[= ->]|[?|?]]; done].
Qed.

Lemma dashboard_formatDuration_text (s : Z) :
  (0 ≤ s)%Z → Dashboard.formatDuration (JS.Val s) = Spec.duration_text s.
Proof.
  intros Hs. unfold Dashboard.formatDuration, Spec.duration_text. simpl.
  rewrite Z.rem_mod_nonneg by lia.
  destruct (Z.ltb_spec 0 (s `div` 3600)); case_decide; try lia; [done|].
  destruct (Z.ltb_spec 0 ((s `mod` 3600) `div` 60)); case_decide; try lia; done.
Qed.

Lemma activity_formatDuration_truthy (v : JS.maybe Z) :
  JS.falsy v = false →
  ActivityLogs.formatDuration v = Some (Dashboard.formatDuration v).
Proof.
  intros Hv. unfold ActivityLogs.formatDuration, Dashboard.formatDuration.
  rewrite Hv. by repeat case_match.
Qed.

Lemma activity_formatDuration_falsy (v : JS.maybe Z) :
  Spec.zero_or_absent v → ActivityLogs.formatDuration v = None.
Proof.
  intros Hv%falsy_spec. unfold ActivityLogs.formatDuration. by rewrite Hv.
Qed.

Lemma total_seconds_zero (logs : list ActivityLog) (acc : Z) :
  Forall (λ log, Spec.zero_or_absent (duration_seconds log)) logs →
  fold_left (λ sum log, (sum + ActivityLogs.or_zero (duration_seconds log))%Z)
    logs acc = acc.
Proof.
  intros H. revert acc. induction H as [|log logs Hlog _ IH]; intros acc; simpl.
  - done.
  - rewrite IH. destruct Hlog as [->|[->| ->]]; simpl; lia.
Qed.

(** C6 (as amended): for every positive integer number of seconds that is
    a safe integer, at most 2^53 - 1, both versions of [formatDuration]
    return '<h>h <m>m' when h > 0, else '<m>m' when m > 0, else '<s>s',
    with h = floor(s / 3600) and m = floor((s mod 3600) / 60); the
    Activity Logs version returns null whenever its argument is zero or
    absent, and that null is shown as '-' in the Duration cell of a row and
    as '0m' on the Total Duration card. *)
Theorem formatDuration_text (s : Z) :
  (0 < s ≤ 9007199254740991)%Z →
  ActivityLogs.formatDuration (JS.Val s) = Some (Spec.duration_text s) ∧
  Dashboard.formatDuration (JS.Val s) = Spec.duration_text s ∧
  (∀ v, Spec.zero_or_absent v → ActivityLogs.formatDuration v = None) ∧
  (∀ log, Spec.zero_or_absent (duration_seconds log) →
          ActivityLogs.duration_cell log = "-") ∧
  (∀ st, Forall (λ log, Spec.zero_or_absent (duration_seconds log))
           (ActivityLogs.logs st) →
         ActivityLogs.total_duration_card st = "0m").
Proof.
  intros Hs. split.
  { rewrite activity_formatDuration_truthy.
    - by rewrite dashboard_formatDuration_text by lia.
    - simpl. apply Z.eqb_neq. lia. }
  split; [apply dashboard_formatDuration_text; lia|].
  split; [apply activity_formatDuration_falsy|]. split.
  - intros log Hlog. unfold ActivityLogs.duration_cell.
    by rewrite activity_formatDuration_falsy.
  - intros st Hst. unfold ActivityLogs.total_duration_card.
    by rewrite total_seconds_zero.
Qed.

(** One hour, two minutes and five seconds. *)
Lemma formatDuration_text_witness :
  ActivityLogs.formatDuration (JS.Val 3725%Z) = Some "1h 2m" ∧
  Dashboard.formatDuration (JS.Val 3725%Z) = "1h 2m".
Proof.
  destruct (formatDuration_text 3725 ltac:(lia)) as (H1 & H2 & _).
  split; [exact H1 | exact H2].
Defined.

(** C6, the claim as first stated: a null of the Activity Logs version is
    not always shown as '-'.  With no logs the argument on the
    Total Duration card is zero, the function returns null, and the card
    shows '0m'. *)
Lemma total_duration_not_dash :
  let st := ActivityLogs.mkState [] [] "" "all" in
  ActivityLogs.formatDuration
    (JS.Val (fold_left (λ sum log, (sum + ActivityLogs.or_zero (duration_seconds log))%Z)
               (ActivityLogs.logs st) 0%Z)) = None ∧
  ActivityLogs.total_duration_card st = "0m" ∧
  ActivityLogs.total_duration_card st ≠ "-".
Proof. repeat split; done. Qed.

(** C10 (as amended): for every duration of at least one second the two
    versions of [formatDuration] return the same string; they differ only
    on a zero or absent duration, where the Activity Logs version returns
    null and the Dashboard version returns '0s' for zero, 'undefineds' for
    [undefined] and 'nulls' for [null]. *)
Theorem formatDuration_versions (s : Z) :
  (1 ≤ s)%Z →
  ActivityLogs.formatDuration (JS.Val s) = Some (Dashboard.formatDuration (JS.Val s)) ∧
  (∀ v, ¬ Spec.zero_or_absent v →
        ActivityLogs.formatDuration v = Some (Dashboard.formatDuration v)) ∧
  (∀ v, Spec.zero_or_absent v → ActivityLogs.formatDuration v = None) ∧
  Dashboard.formatDuration (JS.Val 0%Z) = "0s" ∧
  Dashboard.formatDuration JS.Undefined = "undefineds" ∧
  Dashboard.formatDuration JS.Null = "nulls".
Proof.
  intros Hs.
  assert (Htruthy : ∀ v, ¬ Spec.zero_or_absent v →
            ActivityLogs.formatDuration v = Some (Dashboard.formatDuration v)).
  { intros v Hv. apply activity_formatDuration_truthy.
    destruct (JS.falsy v) eqn:Hf; [|done]. by apply falsy_spec in Hf. }
  split.
  { apply Htruthy. intros [[= ->]|[?|?]]; [lia | done | done]. }
  split; [done|]. split; [apply activity_formatDuration_falsy|]. done.
Qed.

(** Ninety seconds read '1m' on both pages. *)
Lemma formatDuration_versions_witness :
  ActivityLogs.formatDuration (JS.Val 90%Z) = Some (Dashboard.formatDuration (JS.Val 90%Z)).
Proof. exact (proj1 (formatDuration_versions 90 ltac:(lia))). Defined.

(** C10, the claim as first stated: on an absent duration the Dashboard
    version does not return '0s'. *)
Lemma dashboard_absent_not_0s :
  ActivityLogs.formatDuration JS.Undefined = None ∧
  Dashboard.formatDuration JS.Undefined = "undefineds" ∧
  Dashboard.formatDuration JS.Undefined ≠ "0s" ∧
  Dashboard.formatDuration JS.Null ≠ "0s".
Proof. repeat split; done. Qed.

(** ** The Shared with Me page *)

Lemma JS_filter_stdpp {A} (f : A → bool) (P : A → Prop) `{∀ x, Decision (P x)}
    (l : list A) :
  (∀ x, f x = true ↔ P x) → JS.filter f l = filter P l.
Proof.
  intros Hf. induction l as [|x l IH]; simpl; [done|].
  destruct (f x) eqn:Hx.
  - rewrite filter_cons_True by (by apply Hf). by rewrite IH.
  - rewrite filter_cons_False; [done|]. rewrite <-Hf. congruence.
Qed.

Lemma fold_object_set_lookup (l : list Permission) (m : gmap string Permission) k :
  k ≠ "__proto__" →
  fold_left (λ m p, JS.object_set m (document_id p) p) l m !! k =
  match last (filter (λ p, document_id p = k) l) with
  | Some p => Some p
  | None => m !! k
  end.
Proof.
  intros Hk. induction l as [|p l IH] using rev_ind; simpl; [done|].
  rewrite fold_left_app, filter_app. simpl. unfold JS.object_set at 1.
  destruct (decide (document_id p = k)) as [Hp|Hp].
  - rewrite filter_cons_True, filter_nil by done.
    rewrite last_snoc. rewrite <-Hp in Hk |- *.
    apply String.eqb_neq in Hk. rewrite Hk. apply lookup_insert_eq.
  - rewrite filter_cons_False, filter_nil, app_nil_r by done.
    destruct (String.eqb (document_id p) "__proto__"); [done|].
    by rewrite lookup_insert_ne.
Qed.

Lemma fold_object_set_proto (l : list Permission) (m : gmap string Permission) :
  fold_left (λ m p, JS.object_set m (document_id p) p) l m !! "__proto__" =
  m !! "__proto__".
Proof.
  revert m. induction l as [|p l IH]; intros m; simpl; [done|].
  rewrite IH. unfold JS.object_set.
  destruct (String.eqb_spec (document_id p) "__proto__"); [done|].
  by rewrite lookup_insert_ne.
Qed.

(** The own properties of the map: under every id but [__proto__], the
    last approved record with that id; under [__proto__], none. *)
Lemma permMap_lookup (perms : list Permission) (k : string) :
  k ≠ "__proto__" →
  SharedDocuments.permMap perms !! k =
  last (filter (λ p, perm_status p = "approved" ∧ document_id p = k) perms).
Proof.
  intros Hk. unfold SharedDocuments.permMap.
  rewrite fold_object_set_lookup, lookup_empty by done.
  rewrite (JS_filter_stdpp _ (λ p, perm_status p = "approved"))
    by (intros p; apply String.eqb_eq).
  rewrite list_filter_filter.
  replace (filter (λ p, document_id p = k ∧ perm_status p = "approved") perms)
    with (filter (λ p, perm_status p = "approved" ∧ document_id p = k) perms)
    by (apply list_filter_iff; tauto).
  by destruct (last _).
Qed.

Lemma permMap_lookup_proto (perms : list Permission) :
  SharedDocuments.permMap perms !! "__proto__" = None.
Proof.
  unfold SharedDocuments.permMap. by rewrite fold_object_set_proto, lookup_empty.
Qed.

Lemma permMap_lookup_safe (perms : list Permission) (k : string) :
  Spec.no_proto_write perms →
  SharedDocuments.permMap perms !! k =
  last (filter (λ p, perm_status p = "approved" ∧ document_id p = k) perms).
Proof.
  intros Hsafe. destruct (decide (k = "__proto__")) as [->|Hk];
    [|by apply permMap_lookup].
  rewrite permMap_lookup_proto. symmetry.
  destruct (last _) as [p|] eqn:Hlast; [|done].
  apply last_Some_elem_of, list_elem_of_filter in Hlast as [[Hs Hid] Hin].
  unfold Spec.no_proto_write in Hsafe. rewrite Forall_forall in Hsafe.
  by destruct (Hsafe p Hin Hs).
Qed.

Lemma isExpired_spec (Date_parse : string → JS.num) (b : Browser) (p : Permission) :
  Date_parse "" = JS.NaN →
  SharedDocuments.isExpired Date_parse b (Some p) = true ↔
  Spec.expired Date_parse (clock b) p.
Proof.
  intros Hempty. unfold SharedDocuments.isExpired, Spec.expired.
  destruct (expires_at p) as [| |e].
  - split; [done | by intros (? & ? & ? & _)].
  - split; [done | by intros (? & ? & ? & _)].
  - rewrite andb_true_iff. unfold SharedDocuments.date_lt. split.
    + intros [_ Hlt]. destruct (Date_parse e) as [|t] eqn:Hp; [done|].
      apply Z.ltb_lt in Hlt. by exists e, t.
    + intros (e' & t & [= <-] & Hp & Hlt). rewrite Hp. split.
      * destruct e; [congruence | done].
      * by apply Z.ltb_lt.
Qed.

Lemma object_get_Own {V} (m : gmap string V) (k : string) (v : V) :
  JS.object_get m k = JS.Own v ↔ m !! k = Some v.
Proof.
  unfold JS.object_get. destruct (m !! k) as [w|].
  - split; congruence.
  - destruct (existsb _ _); split; discriminate.
Qed.

Lemma format_Some (Date_parse : string → JS.num) (text : string) :
  (∃ out, SharedDocuments.format Date_parse text = Some out) ↔
  Spec.valid_date Date_parse text.
Proof.
  unfold SharedDocuments.format, Spec.valid_date.
  destruct (Date_parse text) as [|t]; split.
  - by intros [? ?].
  - by intros [? ?].
  - eauto.
  - eauto.
Qed.

(** When the button of a card is rendered. *)
Lemma render_card_button (Date_parse : string → JS.num) (b : Browser)
    (st : SharedDocuments.State) (doc : Document) :
  Date_parse "" = JS.NaN →
  SharedDocuments.download_button <$>
    SharedDocuments.render_card Date_parse b st doc = Some true ↔
  Spec.valid_date Date_parse (uploaded_at doc) ∧
  ∃ p, JS.object_get (SharedDocuments.permissions st) (doc_id doc) = JS.Own p ∧
       (permission_type p = "download" ∨ permission_type p = "edit") ∧
       ¬ Spec.expired Date_parse (clock b) p ∧
       (∀ e, expires_at p = JS.Val e → e ≠ "" → Spec.valid_date Date_parse e).
Proof.
  intros Hempty. unfold SharedDocuments.render_card, JS.object_get.
  destruct (SharedDocuments.permissions st !! doc_id doc) as [p|] eqn:Hget.
  - pose proof (isExpired_spec Date_parse b p Hempty) as Hexp.
    unfold SharedDocuments.format, Spec.valid_date.
    destruct (SharedDocuments.isExpired Date_parse b (Some p)) eqn:Hx;
    destruct (expires_at p) as [| |e] eqn:He;
    try destruct (JS.truthy_str e) eqn:Htruthy;
    try destruct (Date_parse e) as [|te] eqn:Hpe;
    destruct (Date_parse (uploaded_at doc)) as [|tu] eqn:Hpu;
    cbn -[String.eqb].
    all: try (split; [discriminate | by intros [[? ?] _]]).
    all: try (rewrite andb_false_r; split;
              [discriminate
              | intros (_ & p0 & [= <-] & _ & Hno & _); destruct Hno; by apply Hexp]).
    all: try (split;
              [discriminate
              | intros (_ & p0 & [= <-] & _ & _ & Hvalid);
                destruct (Hvalid e He) as [t Ht];
                [by apply truthy_str_spec | congruence]]).
    all: rewrite andb_true_r; split;
      [ intros [= Ht]; apply orb_true_iff in Ht; rewrite !String.eqb_eq in Ht;
        split; [eauto|]; exists p; split; [done|]; split; [done|]; split;
        [ intros Hexpd; apply Hexp in Hexpd; discriminate
        | intros e' He' Hne; rewrite He in He'; try discriminate;
          injection He' as <-;
          first [ by exists te | destruct e; [done | discriminate Htruthy] ] ]
      | intros (_ & p0 & [= <-] & Ht & _); f_equal;
        apply orb_true_iff; by rewrite !String.eqb_eq ].
  - split.
    + destruct (existsb _ _); cbn -[String.eqb];
        unfold SharedDocuments.format;
        destruct (Date_parse (uploaded_at doc)); cbn; discriminate.
    + intros (_ & p & Hp & _). destruct (existsb _ _); discriminate.
Qed.

Lemma render_card_doc (Date_parse : string → JS.num) (b : Browser)
    (st : SharedDocuments.State) (doc : Document) (c : SharedDocuments.Card) :
  SharedDocuments.render_card Date_parse b st doc = Some c →
  SharedDocuments.card_doc c = doc.
Proof.
  unfold SharedDocuments.render_card.
  destruct (_ : option (option SharedDocuments.ExpiryChip)); [|done].
  destruct (SharedDocuments.format Date_parse (uploaded_at doc)); [|done].
  by intros [= <-].
Qed.

(** When the card of a document is rendered at all. *)
Lemma render_card_is_Some (Date_parse : string → JS.num) (b : Browser)
    (st : SharedDocuments.State) (doc : Document) :
  is_Some (SharedDocuments.render_card Date_parse b st doc) ↔
  Spec.card_renders Date_parse (SharedDocuments.permissions st) doc.
Proof.
  unfold SharedDocuments.render_card, Spec.card_renders, JS.object_get,
    SharedDocuments.isExpired, SharedDocuments.date_lt, SharedDocuments.format,
    Spec.valid_date.
  destruct (SharedDocuments.permissions st !! doc_id doc) as [p|].
  - destruct (expires_at p) as [| |e] eqn:He;
    try destruct (JS.truthy_str e) eqn:Htruthy;
    try destruct (Date_parse e) as [|te] eqn:Hpe;
    try destruct (te <? clock b)%Z;
    destruct (Date_parse (uploaded_at doc)) as [|tu] eqn:Hpu;
    cbn -[String.eqb].
    all: try (split; [by intros [? ?] | by intros [[? ?] _]]).
    all: try (split; [by intros [? ?]|]; intros [_ Hvalid];
              destruct (Hvalid p e eq_refl He) as [t Ht];
              [by apply truthy_str_spec | congruence]).
    all: split; [|eauto]; intros _; split; [eauto|];
      intros p' e' [= <-] He' Hne; rewrite He in He'; try discriminate;
      injection He' as <-; first [ by eauto | by destruct e ].
  - destruct (existsb _ _); destruct (Date_parse (uploaded_at doc)) as [|tu];
      cbn; (split; [intros [? ?] | intros [[? ?] _]]); try done;
      (split; [eauto | intros ? ? [=]]).
Qed.

(** When the page shows a grid of cards. *)
Lemma render_Grid (Date_parse : string → JS.num) (b : Browser)
    (st : SharedDocuments.State) (cards : list SharedDocuments.Card) :
  SharedDocuments.render Date_parse b st = Some (SharedDocuments.Grid cards) ↔
  SharedDocuments.isLoading st = false ∧
  SharedDocuments.documents st ≠ [] ∧
  mapM (SharedDocuments.render_card Date_parse b st) (SharedDocuments.documents st)
    = Some cards.
Proof.
  unfold SharedDocuments.render.
  destruct (SharedDocuments.isLoading st); [split; [done | by intros [? _]]|].
  destruct (SharedDocuments.documents st) as [|d docs] eqn:Hdocs;
    [split; [done | by intros (_ & ? & _)]|].
  destruct (mapM _ (d :: docs)) as [cards'|]; cbn; split.
  - by intros [= ->].
  - by intros (_ & _ & [= ->]).
  - done.
  - by intros (_ & _ & ?).
Qed.

(** When the page shows the Download button of a document. *)
Lemma download_rendered_iff (Date_parse : string → JS.num) (b : Browser)
    (st : SharedDocuments.State) (doc : Document) :
  Date_parse "" = JS.NaN →
  Spec.download_rendered Date_parse b st doc ↔
  SharedDocuments.isLoading st = false ∧
  doc ∈ SharedDocuments.documents st ∧
  Forall (Spec.card_renders Date_parse (SharedDocuments.permissions st))
    (SharedDocuments.documents st) ∧
  ∃ p, JS.object_get (SharedDocuments.permissions st) (doc_id doc) = JS.Own p ∧
       (permission_type p = "download" ∨ permission_type p = "edit") ∧
       ¬ Spec.expired Date_parse (clock b) p.
Proof.
  intros Hempty. unfold Spec.download_rendered. split.
  - intros (cards & c & (Hload & _ & Hcards)%render_Grid & Hc & Hdoc & Hbutton).
    split; [done|].
    apply mapM_Some in Hcards.
    apply list_elem_of_lookup in Hc as [i Hi].
    destruct (Forall2_lookup_r _ _ _ _ _ Hcards Hi) as (d & Hd & Hcard).
    pose proof (render_card_doc _ _ _ _ _ Hcard) as Hcd.
    rewrite Hdoc in Hcd. subst d.
    split; [by eapply list_elem_of_lookup_2|]. split.
    + apply Forall_forall. intros d' Hd'. apply (render_card_is_Some _ b).
      apply list_elem_of_lookup in Hd' as [j Hj].
      destruct (Forall2_lookup_l _ _ _ _ _ Hcards Hj) as (c' & _ & Hc'). eauto.
    + assert (Hb : SharedDocuments.download_button <$>
                SharedDocuments.render_card Date_parse b st doc = Some true)
        by (by rewrite Hcard; cbn; rewrite Hbutton).
      apply render_card_button in Hb as (_ & p & ? & ? & ? & _); eauto.
  - intros (Hload & Hin & Hall & p & Hp & Ht & Hx).
    assert (Hsome : is_Some (mapM (SharedDocuments.render_card Date_parse b st)
                               (SharedDocuments.documents st))).
    { apply mapM_is_Some. eapply Forall_impl; [exact Hall|].
      intros d Hd. by apply render_card_is_Some. }
    destruct Hsome as [cards Hcards]. exists cards.
    pose proof Hcards as HF. apply mapM_Some in HF.
    apply list_elem_of_lookup in Hin as [i Hi].
    destruct (Forall2_lookup_l _ _ _ _ _ HF Hi) as (c & Hc & Hcard).
    exists c. split.
    { apply render_Grid. split; [done|]. split; [|done].
      intros Hnil. by rewrite Hnil in Hi. }
    split; [by eapply list_elem_of_lookup_2|].
    split; [by eapply render_card_doc|].
    assert (Hb : SharedDocuments.download_button <$>
                SharedDocuments.render_card Date_parse b st doc = Some true).
    { apply render_card_button; [done|].
      rewrite Forall_forall in Hall.
      destruct (Hall doc (list_elem_of_lookup_2 _ _ _ Hi)) as [Hu He].
      split; [done|]. exists p. repeat split; try done. intros e. by apply He. }
    rewrite Hcard in Hb. by injection Hb.
Qed.

(** C1 (as amended): the Shared with Me page shows the Download button of
    a document if and only if the page can be rendered, the uploaded_at of
    every document and every non-empty expires_at of its record being
    valid dates, the document is among those shown, and the permission map
    holds a record for it whose permission_type is 'download' or 'edit'
    and which is not expired; a permission is expired exactly when it has
    an expires_at whose instant is earlier than the current time; the map
    is built from the outgoing permissions keeping the records with status
    'approved', keyed by document_id (none of them '__proto__'), a later
    record replacing an earlier one. *)
Theorem download_button_iff
    (Date_parse : string → JS.num) (b : Browser)
    (st : SharedDocuments.State) (docs : list Document)
    (perms : list Permission) (doc : Document) :
  Date_parse "" = JS.NaN →
  Spec.no_proto_write perms →
  let st' := SharedDocuments.loadSharedDocuments st (Ok docs) (Ok perms) in
  (Spec.download_rendered Date_parse b st' doc ↔
   doc ∈ docs ∧
   Forall (Spec.card_renders Date_parse (SharedDocuments.permissions st')) docs ∧
   ∃ p, JS.object_get (SharedDocuments.permissions st') (doc_id doc) = JS.Own p ∧
        (permission_type p = "download" ∨ permission_type p = "edit") ∧
        ¬ Spec.expired Date_parse (clock b) p) ∧
  (∀ p, SharedDocuments.isExpired Date_parse b (Some p) = true ↔
        Spec.expired Date_parse (clock b) p) ∧
  (∀ k p, JS.object_get (SharedDocuments.permissions st') k = JS.Own p ↔
          last (filter (λ p, perm_status p = "approved" ∧ document_id p = k) perms)
            = Some p).
Proof.
  intros Hempty Hsafe st'. split; [|split].
  - rewrite download_rendered_iff by done. cbn. tauto.
  - intros p. by apply isExpired_spec.
  - intros k p. rewrite object_get_Own. cbn. by rewrite permMap_lookup_safe.
Qed.

(** A download permission that runs until one second after the epoch,
    looked at half a second after the epoch. *)
Lemma download_button_iff_witness :
  let doc := mkDocument "d1" "notes.pdf" JS.Null JS.Null 10
               "1970-01-01T00:00:00.000Z" "Ada" in
  let p := mkPermission "p1" "d1" "Bob" "download" "approved"
             "1970-01-01T00:00:00.000Z" (JS.Val "1970-01-01T00:00:01.000Z") JS.Null in
  let st := SharedDocuments.loadSharedDocuments SharedDocuments.initial
              (Ok [doc]) (Ok [p]) in
  Spec.download_rendered Spec.sample_Date_parse (mkBrowser ∅ "/shared" 500 []) st doc.
Proof.
  intros doc p st.
  assert (Hsafe : Spec.no_proto_write [p])
    by (repeat constructor; intros _; discriminate).
  apply (proj1 (download_button_iff Spec.sample_Date_parse
                  (mkBrowser ∅ "/shared" 500 []) SharedDocuments.initial
                  [doc] [p] doc eq_refl Hsafe)).
  split; [by left|]. split.
  - repeat constructor; [by exists 0%Z|].
    intros p' e [= <-] [= <-] _. by exists 1000%Z.
  - exists p. split; [reflexivity|]. split; [by left|].
    intros (e & t & He & Ht & Hlt). injection He as <-.
    injection Ht as <-. simpl in Hlt. lia.
Defined.

(** C1, the claim as first stated: a record of type 'download' that is
    approved and not expired does not suffice.  The uploaded_at of the
    document is not a date, [format] throws while the card is rendered, and
    the page shows no button. *)
Lemma download_button_needs_valid_dates :
  let doc := mkDocument "d1" "notes.pdf" JS.Null JS.Null 10 "soon" "Ada" in
  let p := mkPermission "p1" "d1" "Bob" "download" "approved"
             "1970-01-01T00:00:00.000Z" JS.Null JS.Null in
  let st := SharedDocuments.loadSharedDocuments SharedDocuments.initial
              (Ok [doc]) (Ok [p]) in
  let b := mkBrowser ∅ "/shared" 500 [] in
  JS.object_get (SharedDocuments.permissions st) (doc_id doc) = JS.Own p ∧
  permission_type p = "download" ∧
  ¬ Spec.expired Spec.sample_Date_parse (clock b) p ∧
  SharedDocuments.render_card Spec.sample_Date_parse b st doc = None ∧
  SharedDocuments.render Spec.sample_Date_parse b st = None ∧
  ¬ Spec.download_rendered Spec.sample_Date_parse b st doc.
Proof.
  intros doc p st b. repeat apply conj; try reflexivity.
  - by intros (e & t & He & _).
  - by intros (cards & c & Hcards & _).
Qed.

(** ** Statelessness of the page logic *)






(** ** Worked examples *)

Example toLowerCase_example :
  JS.ascii_toLowerCase "Report-2024.PDF" = "report-2024.pdf".
Proof. reflexivity. Qed.

Example includes_example : JS.includes "annual report" "al re" = true.
Proof. reflexivity. Qed.

Example filterDocuments_example :
  let d1 := mkDocument "1" "Syllabus.PDF" JS.Null (JS.Val "course") 1
              "2024-01-15T10:00:00Z" "Ada" in
  let d2 := mkDocument "2" "grades.xlsx" (JS.Val "Final syllabus marks") JS.Undefined 1
              "2024-01-15T10:00:00Z" "Ada" in
  let d3 := mkDocument "3" "minutes.txt" JS.Null (JS.Val "course") 1
              "2024-01-15T10:00:00Z" "Ada" in
  @MyDocuments.view JS.ascii_engine
    (MyDocuments.mkState [d1; d2; d3] [] "SYLLABUS" "all") = [d1; d2] ∧
  @MyDocuments.view JS.ascii_engine
    (MyDocuments.mkState [d1; d2; d3] [] "" "course") = [d1; d3].
Proof. split; reflexivity. Qed.

Example formatDuration_examples :
  Dashboard.formatDuration (JS.Val 59%Z) = "59s" ∧
  Dashboard.formatDuration (JS.Val 60%Z) = "1m" ∧
  Dashboard.formatDuration (JS.Val 7200%Z) = "2h 0m" ∧
  Dashboard.formatDuration (JS.Val (-5)%Z) = "-5s" ∧
  ActivityLogs.formatDuration (JS.Val 0%Z) = None.
Proof. repeat split; reflexivity. Qed.

Example outgoing_example :
  let b := mkBrowser {["token" := "abc"]} "/dashboard" 0 [] in
  headers (Api.outgoing b Api.DocumentsGetMy) !! "Authorization" = Some "Bearer abc" ∧
  headers (Api.outgoing b (Api.DocumentsUpload "file")) !! "Content-Type"
    = Some "multipart/form-data" ∧
  Api.outgoing (mkBrowser ∅ "/" 0 []) Api.AuthGetMe = Api.config_of Api.AuthGetMe.
Proof. repeat split; reflexivity. Qed.

Example response_rejected_example :
  let b := mkBrowser {["token" := "abc"]} "/dashboard" 0 [] in
  let unauthorized := Api.mkError (Some (Api.mkResponse 401 "")) "Unauthorized" in
  let not_found := Api.mkError (Some (Api.mkResponse 404 "")) "Not Found" in
  let offline := Api.mkError None "Network Error" in
  getItem (Api.after_rejected b unauthorized) "token" = None ∧
  location_href (Api.after_rejected b unauthorized) = "/" ∧
  Api.after_rejected b not_found = b ∧
  Api.after_rejected b offline = b.
Proof. repeat split; reflexivity. Qed.

Example uniqueDocs_example :
  let a := mkDocument "1" "a.txt" JS.Null JS.Null 1 "2024-01-15T10:00:00Z" "Ada" in
  let b := mkDocument "2" "b.txt" JS.Null JS.Null 1 "2024-01-15T10:00:00Z" "Ada" in
  let a' := mkDocument "1" "a-shared.txt" JS.Null JS.Null 1 "2024-01-15T10:00:00Z" "Bob" in
  AccessRequests.uniqueDocs [a; b] [a'; b] = [a; b].
Proof. reflexivity. Qed.

Example permMap_example :
  let p1 := mkPermission "p1" "d1" "Bob" "view" "approved"
              "2024-01-15T10:00:00Z" JS.Null JS.Null in
  let p2 := mkPermission "p2" "d1" "Bob" "download" "pending"
              "2024-01-15T10:00:00Z" JS.Null JS.Null in
  let p3 := mkPermission "p3" "d1" "Bob" "edit" "approved"
              "2024-01-15T10:00:00Z" JS.Null JS.Null in
  SharedDocuments.permMap [p1; p2; p3] !! "d1" = Some p3.
Proof. reflexivity. Qed.

(** * Further properties of the pages *)

(** ** Searching and filtering *)

Lemma string_app_assoc (a b c : string) : (a +:+ b) +:+ c = a +:+ b +:+ c.
Proof.
  induction a as [|x a IH]; [reflexivity|].
  change (String x ((a +:+ b) +:+ c) = String x (a +:+ b +:+ c)). by rewrite IH.
Qed.

Lemma contains_nocase_refine (s a q b : string) :
  Spec.contains_nocase s (a +:+ q +:+ b) → Spec.contains_nocase s q.
Proof.
  rewrite <-!includes_lower_spec, !includes_spec.
  intros (pre & post & H). rewrite !toLowerCase_app in H.
  exists (pre +:+ JS.ascii_toLowerCase a), (JS.ascii_toLowerCase b +:+ post).
  by rewrite H, !string_app_assoc.
Qed.

Lemma Selects_sublist {A} (P Q : A → Prop) (l r r' : list A) :
  (∀ x, Q x → P x) →
  Spec.Selects P l r → Spec.Selects Q l r' → r' `sublist_of` r.
Proof.
  intros HQP H. revert r'.
  induction H as [|x l r HP _ IH|x l r HP _ IH]; intros r' H'; inversion H'; subst.
  - constructor.
  - by apply sublist_skip, IH.
  - by apply sublist_cons, IH.
  - destruct HP. auto.
  - by apply IH.
Qed.

Lemma Selects_idem {A} (P : A → Prop) (l r : list A) :
  Spec.Selects P l r → Spec.Selects P r r.
Proof. induction 1; [constructor | by constructor | done]. Qed.

(** For any engine, [filterDocuments] selects by its own search test and
    by the category. *)
Lemma filteredDocs_Selects `{!JS.Engine} (st : MyDocuments.State) :
  Spec.Selects
    (λ d, (MyDocuments.searchQuery st ≠ "" →
           MyDocuments.search_callback (MyDocuments.searchQuery st) d = true) ∧
          (MyDocuments.categoryFilter st ≠ "all" →
           category d = JS.Val (MyDocuments.categoryFilter st)))
    (MyDocuments.documents st)
    (MyDocuments.filteredDocs (MyDocuments.filterDocuments st)).
Proof.
  unfold MyDocuments.filterDocuments, MyDocuments.setFilteredDocs.
  cbn [MyDocuments.filteredDocs].
  set (q := MyDocuments.searchQuery st). set (cat := MyDocuments.categoryFilter st).
  eapply Selects_compose with
    (P := λ d, q ≠ "" → MyDocuments.search_callback q d = true)
    (Q := λ d, cat ≠ "all" → category d = JS.Val cat).
  - apply filter_if_Selects with
      (c := JS.truthy_str q) (f := MyDocuments.search_callback q).
    + intros Hq%truthy_str_spec d. tauto.
    + intros Hq d Hne%truthy_str_spec. congruence.
  - apply filter_if_Selects with (f := λ doc, strict_eq (category doc) cat).
    + intros Hc%negb_true_iff%String.eqb_neq d. rewrite strict_eq_spec. tauto.
    + intros Hc%negb_false_iff%String.eqb_eq d. tauto.
Qed.

Lemma filteredLogs_Selects `{!JS.Engine} (st : ActivityLogs.State) :
  Spec.Selects
    (λ l, (ActivityLogs.searchQuery st ≠ "" →
           ActivityLogs.search_callback (ActivityLogs.searchQuery st) l = true) ∧
          (ActivityLogs.actionFilter st ≠ "all" →
           action l = ActivityLogs.actionFilter st))
    (ActivityLogs.logs st)
    (ActivityLogs.filteredLogs (ActivityLogs.filterLogs st)).
Proof.
  unfold ActivityLogs.filterLogs, ActivityLogs.setFilteredLogs.
  cbn [ActivityLogs.filteredLogs].
  set (q := ActivityLogs.searchQuery st). set (act := ActivityLogs.actionFilter st).
  eapply Selects_compose with
    (P := λ l, q ≠ "" → ActivityLogs.search_callback q l = true)
    (Q := λ l, act ≠ "all" → action l = act).
  - apply filter_if_Selects with
      (c := JS.truthy_str q) (f := ActivityLogs.search_callback q).
    + intros Hq%truthy_str_spec l. tauto.
    + intros Hq l Hne%truthy_str_spec. congruence.
  - apply filter_if_Selects with (f := λ log, String.eqb (action log) act).
    + intros Hc%negb_true_iff%String.eqb_neq l. rewrite String.eqb_eq. tauto.
    + intros Hc%negb_false_iff%String.eqb_eq l. tauto.
Qed.

Lemma string_app_empty (a b : string) : a +:+ b = "" → a = "" ∧ b = "".
Proof. destruct a; simpl; [done | discriminate]. Qed.

(** Typing more around a query never adds a row, on ASCII text: on both
    pages the list found for a query that contains [q] is a sublist of the
    list found for [q], under the same category or action filter.  The
    engine is assumed to lower-case ASCII text as ECMAScript does. *)
Theorem refining_query_narrows `{E : !JS.Engine}
    (docs fd fd' : list Document) (logs fl fl' : list ActivityLog)
    (a q b cat act : string) :
  Spec.lowers_ascii E →
  Spec.ascii_text (a +:+ q +:+ b) →
  Forall Spec.ascii_document docs →
  Forall Spec.ascii_log logs →
  MyDocuments.filteredDocs
    (MyDocuments.filterDocuments (MyDocuments.mkState docs fd (a +:+ q +:+ b) cat))
  `sublist_of`
  MyDocuments.filteredDocs
    (MyDocuments.filterDocuments (MyDocuments.mkState docs fd' q cat)) ∧
  ActivityLogs.filteredLogs
    (ActivityLogs.filterLogs (ActivityLogs.mkState logs fl (a +:+ q +:+ b) act))
  `sublist_of`
  ActivityLogs.filteredLogs
    (ActivityLogs.filterLogs (ActivityLogs.mkState logs fl' q act)).
Proof.
  intros HE Haqb Hdocs Hlogs.
  assert (Hq : Spec.ascii_text q).
  { apply is_ascii_app in Haqb as [_ Hqb]. by apply is_ascii_app in Hqb as [Hq _]. }
  split.
  - eapply Selects_sublist;
      [| apply (filteredDocs_ascii HE (MyDocuments.mkState docs fd' q cat) Hq Hdocs)
       | apply (filteredDocs_ascii HE
                  (MyDocuments.mkState docs fd (a +:+ q +:+ b) cat) Haqb Hdocs)].
    cbn. intros d [H1 H2]. split; [|done]. intros Hne.
    destruct H1 as [H1|(desc & Hd & H1)].
    + intros [_ [-> _]%string_app_empty]%string_app_empty. done.
    + left. by eapply contains_nocase_refine.
    + right. exists desc. split; [done|]. by eapply contains_nocase_refine.
  - eapply Selects_sublist;
      [| apply (filteredLogs_ascii HE (ActivityLogs.mkState logs fl' q act) Hq Hlogs)
       | apply (filteredLogs_ascii HE
                  (ActivityLogs.mkState logs fl (a +:+ q +:+ b) act) Haqb Hlogs)].
    cbn. intros l [H1 H2]. split; [|done]. intros Hne.
    destruct H1 as [H1|H1].
    + intros [_ [-> _]%string_app_empty]%string_app_empty. done.
    + left. by eapply contains_nocase_refine.
    + right. by eapply contains_nocase_refine.
Qed.

(** The rows found for 'syllabus' are among those found for 'llab'. *)
Lemma refining_query_narrows_witness :
  let d1 := mkDocument "1" "Syllabus.PDF" JS.Null (JS.Val "course") 1
              "2024-01-15T10:00:00Z" "Ada" in
  let d2 := mkDocument "2" "Llabres.txt" JS.Null JS.Undefined 1
              "2024-01-15T10:00:00Z" "Ada" in
  MyDocuments.filteredDocs
    (@MyDocuments.filterDocuments JS.ascii_engine
       (MyDocuments.mkState [d1; d2] [] ("sy" +:+ "llab" +:+ "us") "all"))
  `sublist_of`
  MyDocuments.filteredDocs
    (@MyDocuments.filterDocuments JS.ascii_engine
       (MyDocuments.mkState [d1; d2] [] "llab" "all")).
Proof.
  intros d1 d2.
  refine (proj1 (@refining_query_narrows JS.ascii_engine [d1; d2] [] [] [] [] []
                   "sy" "llab" "us" "all" "all" ascii_engine_lowers_ascii _ _ _)).
  - reflexivity.
  - repeat constructor; intros desc [= <-]; reflexivity.
  - constructor.
Defined.

(** Outside ASCII the rows need not narrow: with the values ECMAScript
    gives for the final sigma, the query 'Σ' finds nothing in the
    filename 'ΑΣ', and the longer query 'ΑΣ' finds it. *)
Lemma refining_query_final_sigma :
  let d := mkDocument "1" "ΑΣ" JS.Null JS.Null 1 "2024-01-15T10:00:00Z" "Ada" in
  MyDocuments.filteredDocs
    (@MyDocuments.filterDocuments JS.final_sigma_engine
       (MyDocuments.mkState [d] [] ("Α" +:+ "Σ" +:+ "") "all")) = [d] ∧
  MyDocuments.filteredDocs
    (@MyDocuments.filterDocuments JS.final_sigma_engine
       (MyDocuments.mkState [d] [] "Σ" "all")) = [].
Proof. split; reflexivity. Qed.

(** Filtering is idempotent: running [filterDocuments] or [filterLogs]
    over its own result, with the same query and filter, changes
    nothing. *)
Theorem filtering_idempotent `{!JS.Engine}
    (sd : MyDocuments.State) (sl : ActivityLogs.State) :
  let outd := MyDocuments.filteredDocs (MyDocuments.filterDocuments sd) in
  let outl := ActivityLogs.filteredLogs (ActivityLogs.filterLogs sl) in
  MyDocuments.filteredDocs
    (MyDocuments.filterDocuments
       (MyDocuments.mkState outd outd
          (MyDocuments.searchQuery sd) (MyDocuments.categoryFilter sd))) = outd ∧
  ActivityLogs.filteredLogs
    (ActivityLogs.filterLogs
       (ActivityLogs.mkState outl outl
          (ActivityLogs.searchQuery sl) (ActivityLogs.actionFilter sl))) = outl.
Proof.
  intros outd outl. split.
  - eapply Selects_unique.
    + apply (filteredDocs_Selects (MyDocuments.mkState outd outd _ _)).
    + cbn. eapply Selects_idem, (filteredDocs_Selects sd).
  - eapply Selects_unique.
    + apply (filteredLogs_Selects (ActivityLogs.mkState outl outl _ _)).
    + cbn. eapply Selects_idem, (filteredLogs_Selects sl).
Qed.

(** ** The entries of the filter menus *)

Lemma existsb_eqb_elem_of (x : string) (acc : list string) :
  existsb (String.eqb x) acc = true ↔ x ∈ acc.
Proof.
  rewrite existsb_exists. split.
  - intros (y & Hy%list_elem_of_In & ->%String.eqb_eq). done.
  - intros H. exists x. split; [by apply list_elem_of_In | apply String.eqb_refl].
Qed.

Lemma set_add_all_spec (acc xs : list string) :
  NoDup acc →
  NoDup (JS.set_add_all acc xs) ∧
  ∀ x, x ∈ JS.set_add_all acc xs ↔ x ∈ acc ∨ x ∈ xs.
Proof.
  revert acc. induction xs as [|y xs IH]; intros acc Hacc; simpl.
  - split; [done|]. intros x. rewrite elem_of_nil. tauto.
  - destruct (existsb (String.eqb y) acc) eqn:Hy.
    + apply existsb_eqb_elem_of in Hy. destruct (IH acc Hacc) as [Hnd Hin].
      split; [done|]. intros x. rewrite Hin, elem_of_cons.
      split; [tauto | intros [?|[->|?]]; tauto].
    + assert (y ∉ acc) by (rewrite <-existsb_eqb_elem_of; congruence).
      destruct (IH (acc ++ [y])) as [Hnd Hin].
      { apply NoDup_app. split; [done|]. split; [|apply NoDup_singleton].
        intros x Hx ->%list_elem_of_singleton. done. }
      split; [done|]. intros x.
      rewrite Hin, elem_of_app, list_elem_of_singleton, elem_of_cons. tauto.
Qed.

Lemma set_spread_spec (xs : list string) :
  NoDup (JS.set_spread xs) ∧ ∀ x, x ∈ JS.set_spread xs ↔ x ∈ xs.
Proof.
  destruct (set_add_all_spec [] xs (NoDup_nil_2)) as [Hnd Hin].
  split; [done|]. intros x. rewrite Hin, elem_of_nil. tauto.
Qed.

Lemma filter_Boolean_spec (xs : list (JS.maybe string)) (s : string) :
  s ∈ JS.filter_Boolean xs ↔ s ≠ "" ∧ JS.Val s ∈ xs.
Proof.
  induction xs as [|[| |t] xs IH]; simpl.
  - rewrite !elem_of_nil. tauto.
  - rewrite IH, elem_of_cons. split; [tauto | intros [? [?|?]]; [done | tauto]].
  - rewrite IH, elem_of_cons. split; [tauto | intros [? [?|?]]; [done | tauto]].
  - destruct (JS.truthy_str t) eqn:Ht.
    + apply truthy_str_spec in Ht. rewrite !elem_of_cons, IH. split.
      * intros [->|[? ?]]; [split; [done | by left] | tauto].
      * intros [? [[= ->]|?]]; [by left | tauto].
    + assert (t = "") as -> by (by destruct t).
      rewrite IH, elem_of_cons. split; [tauto|].
      intros [? [[= ->]|?]]; [done | tauto].
Qed.

(** The categories offered by the filter of My Documents are pairwise
    distinct, they are exactly the non-empty categories carried by some
    document, and choosing any of them (with the empty query) lists at
    least one document. *)
Theorem uniqueCategories_offer `{!JS.Engine} (st : MyDocuments.State) :
  NoDup (MyDocuments.uniqueCategories st) ∧
  (∀ c, c ∈ MyDocuments.uniqueCategories st ↔
        c ≠ "" ∧ ∃ d, d ∈ MyDocuments.documents st ∧ category d = JS.Val c) ∧
  (∀ c, c ∈ MyDocuments.uniqueCategories st →
        MyDocuments.filteredDocs
          (MyDocuments.filterDocuments
             (MyDocuments.mkState (MyDocuments.documents st)
                (MyDocuments.filteredDocs st) "" c)) ≠ []).
Proof.
  unfold MyDocuments.uniqueCategories.
  destruct (set_spread_spec
    (JS.filter_Boolean (map category (MyDocuments.documents st)))) as [Hnd Hin].
  assert (Hmem : ∀ c, c ∈ JS.set_spread
              (JS.filter_Boolean (map category (MyDocuments.documents st))) ↔
            c ≠ "" ∧ ∃ d, d ∈ MyDocuments.documents st ∧ category d = JS.Val c).
  { intros c. rewrite Hin, filter_Boolean_spec.
    change (map category (MyDocuments.documents st))
      with (category <$> MyDocuments.documents st).
    rewrite list_elem_of_fmap.
    split; intros [? (d & ? & ?)]; (split; [done|]); by exists d. }
  split; [done|]. split; [done|].
  intros c (_ & d & Hd & Hc)%Hmem Hnil.
  pose proof (filteredDocs_Selects
    (MyDocuments.mkState (MyDocuments.documents st)
       (MyDocuments.filteredDocs st) "" c)) as Hsel.
  cbn [MyDocuments.documents MyDocuments.searchQuery MyDocuments.categoryFilter]
    in Hsel.
  rewrite Hnil in Hsel.
  assert (d ∈ @nil Document) as Hbad; [|by apply elem_of_nil in Hbad].
  apply (Selects_elem_of _ _ _ _ Hsel). split; [done|]. split; done.
Qed.

(** The actions offered by the filter of Activity Logs are pairwise
    distinct, they are exactly the actions carried by some log record, and
    choosing any of them (with the empty query) lists at least one
    record. *)
Theorem uniqueActions_offer `{!JS.Engine} (st : ActivityLogs.State) :
  NoDup (ActivityLogs.uniqueActions st) ∧
  (∀ a, a ∈ ActivityLogs.uniqueActions st ↔
        ∃ l, l ∈ ActivityLogs.logs st ∧ action l = a) ∧
  (∀ a, a ∈ ActivityLogs.uniqueActions st →
        ActivityLogs.filteredLogs
          (ActivityLogs.filterLogs
             (ActivityLogs.mkState (ActivityLogs.logs st)
                (ActivityLogs.filteredLogs st) "" a)) ≠ []).
Proof.
  unfold ActivityLogs.uniqueActions.
  destruct (set_spread_spec (map action (ActivityLogs.logs st))) as [Hnd Hin].
  assert (Hmem : ∀ a, a ∈ JS.set_spread (map action (ActivityLogs.logs st)) ↔
            ∃ l, l ∈ ActivityLogs.logs st ∧ action l = a).
  { intros a. rewrite Hin.
    change (map action (ActivityLogs.logs st))
      with (action <$> ActivityLogs.logs st).
    rewrite list_elem_of_fmap.
    split; intros (l & ? & ?); by exists l. }
  split; [done|]. split; [done|].
  intros a (l & Hl & Ha)%Hmem Hnil.
  pose proof (filteredLogs_Selects
    (ActivityLogs.mkState (ActivityLogs.logs st)
       (ActivityLogs.filteredLogs st) "" a)) as Hsel.
  cbn [ActivityLogs.logs ActivityLogs.searchQuery ActivityLogs.actionFilter]
    in Hsel.
  rewrite Hnil in Hsel.
  assert (l ∈ @nil ActivityLog) as Hbad; [|by apply elem_of_nil in Hbad].
  apply (Selects_elem_of _ _ _ _ Hsel). split; [done|]. split; done.
Qed.

(** ** The Request Access dialog *)

Lemma Selects_sublist_self {A} (P : A → Prop) (l r : list A) :
  Spec.Selects P l r → r `sublist_of` l.
Proof.
  induction 1; [constructor | by apply sublist_skip | by apply sublist_cons].
Qed.

Lemma contains_nocase_empty (s : string) : Spec.contains_nocase s "".
Proof. exists "", "", s. split; [reflexivity | constructor]. Qed.

Lemma pending_request_spec (st : AccessRequests.State) (doc : Document) :
  existsb
    (λ req, String.eqb (document_id req) (doc_id doc) &&
            String.eqb (perm_status req) "pending")
    (AccessRequests.outgoingRequests st) = true ↔
  ∃ r, r ∈ AccessRequests.outgoingRequests st ∧
       document_id r = doc_id doc ∧ perm_status r = "pending".
Proof.
  rewrite existsb_exists. split.
  - intros (r & Hr%list_elem_of_In & [H1%String.eqb_eq H2%String.eqb_eq]%andb_true_iff).
    eauto.
  - intros (r & Hr & H1 & H2). exists r. split; [by apply list_elem_of_In|].
    apply andb_true_iff. by rewrite !String.eqb_eq.
Qed.

Lemma filter_sublist {A} (f : A → bool) (l : list A) : JS.filter f l `sublist_of` l.
Proof.
  induction l as [|x l IH]; simpl; [constructor|].
  destruct (f x); [by apply sublist_skip | by apply sublist_cons].
Qed.

(** The documents offered in the Request Access dialog, on ASCII text, are
    exactly the merged documents whose filename contains the query
    case-insensitively (all of them for the empty query) and for which no
    outgoing request is pending; no document with a pending request is
    ever offered, and after [loadAllDocuments] no id is offered twice.  The
    engine is assumed to lower-case ASCII text as ECMAScript does. *)
Theorem availableDocuments_offer `{E : !JS.Engine}
    (st : AccessRequests.State) (q : string) (my sh : list Document) :
  Spec.lowers_ascii E →
  Spec.ascii_text q →
  Forall (λ d, Spec.ascii_text (filename d)) (AccessRequests.allDocuments st) →
  Spec.Selects
    (λ d, Spec.contains_nocase (filename d) q ∧
          ¬ ∃ r, r ∈ AccessRequests.outgoingRequests st ∧
                 document_id r = doc_id d ∧ perm_status r = "pending")
    (AccessRequests.allDocuments st)
    (AccessRequests.availableDocuments st q) ∧
  (∀ d r, d ∈ AccessRequests.availableDocuments st q →
          r ∈ AccessRequests.outgoingRequests st →
          document_id r = doc_id d → perm_status r ≠ "pending") ∧
  (∀ d, d ∈ AccessRequests.availableDocuments st "" ↔
        d ∈ AccessRequests.allDocuments st ∧
        ¬ ∃ r, r ∈ AccessRequests.outgoingRequests st ∧
               document_id r = doc_id d ∧ perm_status r = "pending") ∧
  NoDup (doc_id <$>
           AccessRequests.availableDocuments
             (AccessRequests.loadAllDocuments st (Ok my) (Ok sh)) q).
Proof.
  intros HE Hq Hdocs.
  assert (Hsel : ∀ q', Spec.ascii_text q' →
    Spec.Selects
      (λ d, Spec.contains_nocase (filename d) q' ∧
            ¬ ∃ r, r ∈ AccessRequests.outgoingRequests st ∧
                   document_id r = doc_id d ∧ perm_status r = "pending")
      (AccessRequests.allDocuments st)
      (AccessRequests.availableDocuments st q')).
  { intros q' Hq'. apply filter_Selects_Forall.
    eapply Forall_impl; [exact Hdocs|]. intros d Hd. cbn beta.
    rewrite andb_true_iff, negb_true_iff, (includes_engine_spec _ _ HE Hd Hq').
    rewrite <-not_true_iff_false, pending_request_spec. tauto. }
  split; [by apply Hsel|]. split; [|split].
  - intros d r Hd Hr Hid Hp.
    apply (Selects_elem_of _ _ _ _ (Hsel q Hq)) in Hd as (_ & _ & Hno).
    apply Hno. eauto.
  - intros d. rewrite (Selects_elem_of _ _ _ _ (Hsel "" eq_refl)).
    pose proof (contains_nocase_empty (filename d)). tauto.
  - eapply sublist_NoDup; [| apply fmap_sublist, filter_sublist].
    cbn [AccessRequests.loadAllDocuments AccessRequests.allDocuments].
    apply (FirstOccurrences_NoDup [] (my ++ sh)).
    apply (filter_from_FirstOccurrences (my ++ sh) []).
Qed.

(** Two documents match the query 'PLAN'; a request for the second is
    pending, and the first alone is offered. *)
Lemma availableDocuments_offer_witness :
  let d1 := mkDocument "1" "plan-a.pdf" JS.Null JS.Null 1 "2024-01-15T10:00:00Z" "Ada" in
  let d2 := mkDocument "2" "Plan-B.pdf" JS.Null JS.Null 1 "2024-01-15T10:00:00Z" "Bob" in
  let r := mkPermission "p1" "2" "Bob" "view" "pending" "2024-01-15T10:00:00Z"
             JS.Null JS.Null in
  let st := AccessRequests.mkState [] [r] [d1; d2] false [] in
  Spec.Selects
    (λ d, Spec.contains_nocase (filename d) "PLAN" ∧
          ¬ ∃ r, r ∈ AccessRequests.outgoingRequests st ∧
                 document_id r = doc_id d ∧ perm_status r = "pending")
    (AccessRequests.allDocuments st)
    (@AccessRequests.availableDocuments JS.ascii_engine st "PLAN").
Proof.
  intros d1 d2 r st.
  refine (proj1 (@availableDocuments_offer JS.ascii_engine st "PLAN" [] []
                   ascii_engine_lowers_ascii _ _)).
  - reflexivity.
  - repeat constructor.
Defined.

(** ** Merging documents, continued *)

Lemma FirstOccurrences_id (seen : list string) (l : list Document) :
  NoDup (doc_id <$> l) →
  (∀ d, d ∈ l → doc_id d ∉ seen) →
  Spec.FirstOccurrences seen l l.
Proof.
  revert seen. induction l as [|x l IH]; intros seen Hnd Hseen; [constructor|].
  rewrite fmap_cons in Hnd. apply NoDup_cons in Hnd as [Hx Hnd].
  apply Spec.FirstOcc_keep; [apply Hseen; by left|].
  apply IH; [done|]. intros d Hd. rewrite elem_of_cons. intros [Heq|Hin].
  - apply Hx. rewrite <-Heq. apply list_elem_of_fmap. eauto.
  - apply (Hseen d); [by right | done].
Qed.

Lemma FirstOccurrences_unique (seen : list string) (l r1 r2 : list Document) :
  Spec.FirstOccurrences seen l r1 → Spec.FirstOccurrences seen l r2 → r1 = r2.
Proof.
  intros H. revert r2.
  induction H as [seen|seen x l r Hx _ IH|seen x l r Hx _ IH]; intros r2 H2;
    inversion H2; subst; try done; f_equal; auto.
Qed.

Lemma first_with_id_app (k : string) (l1 l2 : list Document) :
  Spec.first_with_id k (l1 ++ l2) =
  match Spec.first_with_id k l1 with
  | Some d => Some d
  | None => Spec.first_with_id k l2
  end.
Proof.
  induction l1 as [|x l1 IH]; simpl; [done|]. by case_decide.
Qed.

(** Merging is idempotent and leaves two lists without common or repeated
    ids as their concatenation; where an owned and a shared document carry
    the same id, the owned one is kept. *)
Theorem uniqueDocs_precedence (my sh : list Document) :
  AccessRequests.uniqueDocs (AccessRequests.uniqueDocs my sh) [] =
    AccessRequests.uniqueDocs my sh ∧
  (NoDup (doc_id <$> my ++ sh) → AccessRequests.uniqueDocs my sh = my ++ sh) ∧
  (∀ k, Spec.first_with_id k (AccessRequests.uniqueDocs my sh) =
        match Spec.first_with_id k my with
        | Some d => Some d
        | None => Spec.first_with_id k sh
        end) ∧
  length (AccessRequests.uniqueDocs my sh) ≤ length my + length sh.
Proof.
  assert (Hocc : ∀ l, Spec.FirstOccurrences [] l (AccessRequests.uniqueDocs l []))
    by (intros l; unfold AccessRequests.uniqueDocs; rewrite app_nil_r;
        apply (filter_from_FirstOccurrences l [])).
  assert (Hid : ∀ l, NoDup (doc_id <$> l) → AccessRequests.uniqueDocs l [] = l).
  { intros l Hl. eapply FirstOccurrences_unique; [apply Hocc|].
    apply FirstOccurrences_id; [done|]. intros d _. apply not_elem_of_nil. }
  assert (Hms : Spec.FirstOccurrences [] (my ++ sh) (AccessRequests.uniqueDocs my sh))
    by apply (filter_from_FirstOccurrences (my ++ sh) []).
  split; [|split; [|split]].
  - apply Hid. by eapply FirstOccurrences_NoDup.
  - intros Hnd. eapply FirstOccurrences_unique; [exact Hms|].
    apply FirstOccurrences_id; [done|]. intros d _. apply not_elem_of_nil.
  - intros k. rewrite <-first_with_id_app.
    eapply FirstOccurrences_first; [exact Hms | apply not_elem_of_nil].
  - rewrite <-length_app. apply sublist_length.
    clear Hocc Hid. induction Hms; [constructor | by apply sublist_skip | by apply sublist_cons].
Qed.

(** ** The permission map and expiry, continued *)

Lemma approved_record_last (perms : list Permission) (k : string) :
  is_Some (last (filter (λ p, perm_status p = "approved" ∧ document_id p = k) perms)) ↔
  ∃ p, p ∈ perms ∧ perm_status p = "approved" ∧ document_id p = k.
Proof.
  split.
  - intros [p Hp%last_Some_elem_of]. apply list_elem_of_filter in Hp.
    exists p. tauto.
  - intros (p & Hp & Hs & Hk).
    assert (Hin : p ∈ filter (λ p, perm_status p = "approved" ∧ document_id p = k) perms)
      by (apply list_elem_of_filter; tauto).
    destruct (last _) eqn:Hlast; [eauto|].
    apply last_None in Hlast. rewrite Hlast in Hin. by apply elem_of_nil in Hin.
Qed.

(** Every record of the permission map is one of the outgoing permissions,
    is approved, and is filed under its own document_id; looking an id up
    in the map gives a record exactly when some outgoing permission for it
    is approved; without one, the lookup still gives something, a member
    that every object inherits, exactly for the names of
    [Object.prototype], such as 'constructor'.  No approved record is
    filed under '__proto__'. *)
Theorem permMap_invariant (perms : list Permission) :
  Spec.no_proto_write perms →
  map_Forall
    (λ k p, p ∈ perms ∧ perm_status p = "approved" ∧ document_id p = k)
    (SharedDocuments.permMap perms) ∧
  (∀ k, (∃ p, JS.object_get (SharedDocuments.permMap perms) k = JS.Own p) ↔
        ∃ p, p ∈ perms ∧ perm_status p = "approved" ∧ document_id p = k) ∧
  (∀ k, JS.object_get (SharedDocuments.permMap perms) k = JS.Inherited ↔
        k ∈ JS.object_prototype_names ∧
        ¬ ∃ p, p ∈ perms ∧ perm_status p = "approved" ∧ document_id p = k) ∧
  (∀ k, JS.object_get (SharedDocuments.permMap perms) k = JS.Absent ↔
        (k ∉ JS.object_prototype_names) ∧
        ¬ ∃ p, p ∈ perms ∧ perm_status p = "approved" ∧ document_id p = k).
Proof.
  intros Hsafe. split; [|split; [|split]].
  - apply map_Forall_lookup. intros k p. rewrite permMap_lookup_safe by done.
    intros Hp%last_Some_elem_of. apply list_elem_of_filter in Hp. tauto.
  - intros k. rewrite <-approved_record_last, <-permMap_lookup_safe by done.
    split; intros [p Hp]; exists p; by apply object_get_Own.
  - intros k. rewrite <-approved_record_last, <-permMap_lookup_safe by done.
    rewrite <-existsb_eqb_elem_of. unfold JS.object_get.
    destruct (SharedDocuments.permMap perms !! k) as [p|].
    + split; [done | intros [_ Hno]; destruct Hno; eauto].
    + destruct (existsb _ _).
      * split; [|done]. intros _. split; [done | by intros [? ?]].
      * split; [done | by intros [? _]].
  - intros k. rewrite <-approved_record_last, <-permMap_lookup_safe by done.
    rewrite <-existsb_eqb_elem_of. unfold JS.object_get.
    destruct (SharedDocuments.permMap perms !! k) as [p|].
    + split; [done | intros [_ Hno]; destruct Hno; eauto].
    + destruct (existsb _ _).
      * split; [done | by intros [Hno _]].
      * split; [|done]. intros _. split; [done | by intros [? ?]].
Qed.

(** With one approved record for the document 'd1', the lookup of
    'constructor' finds what every object inherits. *)
Lemma permMap_invariant_witness :
  let p := mkPermission "p1" "d1" "Bob" "view" "approved" "2024-01-15T10:00:00Z"
             JS.Null JS.Null in
  JS.object_get (SharedDocuments.permMap [p]) "constructor" = JS.Inherited.
Proof.
  intros p.
  assert (Hsafe : Spec.no_proto_write [p])
    by (repeat constructor; intros _; discriminate).
  apply (proj1 (proj2 (proj2 (permMap_invariant [p] Hsafe)))).
  split.
  - apply (bool_decide_unpack _). by vm_compute.
  - intros (q & Hq & _ & Hid). apply list_elem_of_singleton in Hq as ->.
    discriminate Hid.
Defined.

Lemma isExpired_mono (Date_parse : string → JS.num) (b1 b2 : Browser)
    (perm : option Permission) :
  (clock b1 ≤ clock b2)%Z →
  SharedDocuments.isExpired Date_parse b1 perm = true →
  SharedDocuments.isExpired Date_parse b2 perm = true.
Proof.
  intros Hle. unfold SharedDocuments.isExpired.
  destruct perm as [p|]; [|done]. destruct (expires_at p) as [| |e]; [done..|].
  rewrite !andb_true_iff. intros [He Hlt]. split; [done|].
  unfold SharedDocuments.date_lt in *. destruct (Date_parse e); [done|].
  apply Z.ltb_lt in Hlt. apply Z.ltb_lt. lia.
Qed.

Lemma download_button_mono (Date_parse : string → JS.num) (b1 b2 : Browser)
    (st : SharedDocuments.State) (doc : Document) :
  (clock b1 ≤ clock b2)%Z →
  SharedDocuments.download_button <$>
    SharedDocuments.render_card Date_parse b2 st doc = Some true →
  SharedDocuments.download_button <$>
    SharedDocuments.render_card Date_parse b1 st doc = Some true.
Proof.
  intros Hle.
  unfold SharedDocuments.render_card, JS.object_get, SharedDocuments.format.
  destruct (SharedDocuments.permissions st !! doc_id doc) as [p|].
  - pose proof (isExpired_mono Date_parse b1 b2 (Some p) Hle) as Hmono.
    destruct (SharedDocuments.isExpired Date_parse b1 (Some p)) eqn:H1;
    destruct (SharedDocuments.isExpired Date_parse b2 (Some p)) eqn:H2;
    try (by discriminate (Hmono eq_refl));
    destruct (expires_at p) as [| |e];
    try destruct (JS.truthy_str e);
    try destruct (Date_parse e);
    destruct (Date_parse (uploaded_at doc));
    cbn -[String.eqb]; rewrite ?andb_false_r; try done.
  - destruct (existsb _ _); destruct (Date_parse (uploaded_at doc)); cbn; done.
Qed.

(** Expiry is permanent: a permission that is expired at some instant is
    expired at every later one, and a Download button that is absent
    because of it does not come back; put the other way, a button shown at
    a later instant was shown at every earlier one, on the card of the
    document and on the page. *)
Theorem expiry_is_permanent
    (Date_parse : string → JS.num) (b1 b2 : Browser)
    (st : SharedDocuments.State) (doc : Document) :
  (clock b1 ≤ clock b2)%Z →
  (∀ perm, SharedDocuments.isExpired Date_parse b1 perm = true →
           SharedDocuments.isExpired Date_parse b2 perm = true) ∧
  (SharedDocuments.download_button <$>
     SharedDocuments.render_card Date_parse b2 st doc = Some true →
   SharedDocuments.download_button <$>
     SharedDocuments.render_card Date_parse b1 st doc = Some true) ∧
  (Spec.download_rendered Date_parse b2 st doc →
   Spec.download_rendered Date_parse b1 st doc).
Proof.
  intros Hle. split; [intros perm; by apply isExpired_mono|].
  split; [by apply download_button_mono|].
  unfold Spec.download_rendered.
  intros (cards2 & c2 & (Hload & Hne & Hcards2)%render_Grid & Hc2 & Hdoc & Hbutton).
  apply mapM_Some in Hcards2.
  assert (Hsome : is_Some (mapM (SharedDocuments.render_card Date_parse b1 st)
                             (SharedDocuments.documents st))).
  { apply mapM_is_Some, Forall_forall. intros d Hd.
    apply render_card_is_Some, (render_card_is_Some _ b2).
    apply list_elem_of_lookup in Hd as [j Hj].
    destruct (Forall2_lookup_l _ _ _ _ _ Hcards2 Hj) as (c' & _ & Hc'). eauto. }
  destruct Hsome as [cards1 Hcards1]. exists cards1.
  pose proof Hcards1 as HF. apply mapM_Some in HF.
  apply list_elem_of_lookup in Hc2 as [i Hi].
  destruct (Forall2_lookup_r _ _ _ _ _ Hcards2 Hi) as (d & Hd & Hcard2).
  pose proof (render_card_doc _ _ _ _ _ Hcard2) as Hcd.
  rewrite Hdoc in Hcd. subst d.
  destruct (Forall2_lookup_l _ _ _ _ _ HF Hd) as (c1 & Hc1 & Hcard1).
  exists c1. split; [by apply render_Grid|].
  split; [by eapply list_elem_of_lookup_2|].
  split; [by eapply render_card_doc|].
  assert (Hb : SharedDocuments.download_button <$>
              SharedDocuments.render_card Date_parse b1 st doc = Some true).
  { apply (download_button_mono _ _ b2); [done|]. rewrite Hcard2. cbn.
    by rewrite Hbutton. }
  rewrite Hcard1 in Hb. by injection Hb.
Qed.

(** A download permission running until one second after the epoch: shown
    at 500 ms because it is shown at 800 ms. *)
Lemma expiry_is_permanent_witness :
  let doc := mkDocument "d1" "notes.pdf" JS.Null JS.Null 10
               "1970-01-01T00:00:00.000Z" "Ada" in
  let p := mkPermission "p1" "d1" "Bob" "download" "approved"
             "1970-01-01T00:00:00.000Z" (JS.Val "1970-01-01T00:00:01.000Z") JS.Null in
  let st := SharedDocuments.loadSharedDocuments SharedDocuments.initial
              (Ok [doc]) (Ok [p]) in
  SharedDocuments.download_button <$>
    SharedDocuments.render_card Spec.sample_Date_parse
      (mkBrowser ∅ "/shared" 500 []) st doc = Some true.
Proof.
  intros doc p st.
  refine (proj1 (proj2
    (expiry_is_permanent Spec.sample_Date_parse (mkBrowser ∅ "/shared" 500 [])
       (mkBrowser ∅ "/shared" 800 []) st doc _)) _); [simpl; lia | reflexivity].
Defined.

(** The latest approved permission for a document decides alone: when the
    outgoing list ends with an approved record for the document, the card
    of the document is the one rendered from that record alone, whatever
    earlier records granted; where the uploaded_at of the document and a
    present expires_at of the record are valid dates, the card is rendered
    and its Download button is there exactly when the record is of type
    'download' or 'edit' and not expired; where the uploaded_at is not a
    valid date, no card is rendered. *)
Theorem latest_approved_decides
    (Date_parse : string → JS.num) (b : Browser) (st : SharedDocuments.State)
    (docs : list Document) (earlier : list Permission) (p : Permission)
    (doc : Document) :
  perm_status p = "approved" →
  document_id p = doc_id doc →
  doc_id doc ≠ "__proto__" →
  let st' := SharedDocuments.loadSharedDocuments st (Ok docs) (Ok (earlier ++ [p])) in
  SharedDocuments.render_card Date_parse b st' doc =
    SharedDocuments.render_card Date_parse b
      (SharedDocuments.loadSharedDocuments st (Ok docs) (Ok [p])) doc ∧
  (Spec.valid_date Date_parse (uploaded_at doc) →
   (∀ e, expires_at p = JS.Val e → e ≠ "" → Spec.valid_date Date_parse e) →
   SharedDocuments.download_button <$> SharedDocuments.render_card Date_parse b st' doc
   = Some ((String.eqb (permission_type p) "download" ||
            String.eqb (permission_type p) "edit") &&
           negb (SharedDocuments.isExpired Date_parse b (Some p)))) ∧
  (¬ Spec.valid_date Date_parse (uploaded_at doc) →
   SharedDocuments.render_card Date_parse b st' doc = None).
Proof.
  intros Hs Hk Hne st'.
  assert (Hget : ∀ l, SharedDocuments.permMap (l ++ [p]) !! doc_id doc = Some p).
  { intros l. rewrite permMap_lookup by done.
    rewrite filter_app, filter_cons_True, filter_nil by done. by rewrite last_snoc. }
  assert (Hcard : ∀ l,
    SharedDocuments.render_card Date_parse b
      (SharedDocuments.loadSharedDocuments st (Ok docs) (Ok (l ++ [p]))) doc =
    (chip ← match expires_at p with
            | JS.Val e =>
                if JS.truthy_str e then
                  if SharedDocuments.isExpired Date_parse b (Some p)
                  then Some (Some SharedDocuments.ChipExpired)
                  else until ← SharedDocuments.format Date_parse e;
                       Some (Some (SharedDocuments.ChipUntil until))
                else Some None
            | _ => Some None
            end;
     uploaded_text ← SharedDocuments.format Date_parse (uploaded_at doc);
     Some (SharedDocuments.mkCard doc (Some (JS.Val (permission_type p)))
             chip uploaded_text
             ((String.eqb (permission_type p) "download" ||
               String.eqb (permission_type p) "edit") &&
              negb (SharedDocuments.isExpired Date_parse b (Some p)))))).
  { intros l. unfold SharedDocuments.render_card, JS.object_get.
    cbn [SharedDocuments.loadSharedDocuments SharedDocuments.permissions].
    by rewrite Hget. }
  split; [|split].
  - subst st'. change [p] with ([] ++ [p]) at 2.
    by rewrite (Hcard earlier), (Hcard []).
  - intros [tu Hu] Hvalid. subst st'. rewrite (Hcard earlier).
    unfold SharedDocuments.format. rewrite Hu.
    destruct (expires_at p) as [| |e] eqn:He; [done..|].
    destruct (JS.truthy_str e) eqn:Htruthy; [|done].
    destruct (SharedDocuments.isExpired Date_parse b (Some p)); [done|].
    destruct (Hvalid e eq_refl) as [te Hte]; [by apply truthy_str_spec|].
    by rewrite Hte.
  - intros Hu. subst st'. rewrite (Hcard earlier). unfold SharedDocuments.format.
    destruct (Date_parse (uploaded_at doc)) as [|tu] eqn:Hpu.
    + by destruct (_ : option (option SharedDocuments.ExpiryChip)).
    + destruct Hu. by exists tu.
Qed.

(** An earlier download permission is overridden by a later view
    permission for the same document. *)
Lemma latest_approved_decides_witness :
  let doc := mkDocument "d1" "notes.pdf" JS.Null JS.Null 10
               "1970-01-01T00:00:00.000Z" "Ada" in
  let p1 := mkPermission "p1" "d1" "Bob" "download" "approved"
              "1970-01-01T00:00:00.000Z" JS.Null JS.Null in
  let p2 := mkPermission "p2" "d1" "Bob" "view" "approved"
              "1970-01-01T00:00:00.000Z" JS.Null JS.Null in
  SharedDocuments.download_button <$>
    SharedDocuments.render_card Spec.sample_Date_parse (mkBrowser ∅ "/shared" 0 [])
      (SharedDocuments.loadSharedDocuments SharedDocuments.initial
         (Ok [doc]) (Ok ([p1] ++ [p2]))) doc = Some false.
Proof.
  intros doc p1 p2.
  refine (proj1 (proj2
    (latest_approved_decides Spec.sample_Date_parse (mkBrowser ∅ "/shared" 0 [])
       SharedDocuments.initial [doc] [p1] p2 doc eq_refl eq_refl _)) _ _).
  - discriminate.
  - by exists 0%Z.
  - intros e He. discriminate He.
Defined.

(** ** Durations, continued *)

Lemma app_not_dash (x u : string) :
  u ≠ "" → u ≠ "-" → x +:+ u ≠ "-" ∧ x +:+ u ≠ "".
Proof.
  intros Hu1 Hu2. destruct x as [|c x]; [done|]. split; [|done].
  intros H. injection H as _ Hx. destruct x; [done | discriminate].
Qed.

Lemma activity_formatDuration_text_shape (v : JS.maybe Z) (s : string) :
  ActivityLogs.formatDuration v = Some s → s ≠ "-" ∧ s ≠ "".
Proof.
  unfold ActivityLogs.formatDuration. repeat case_match; intros [= <-]; try done.
  - apply app_not_dash; [done|]. intros Hbad. discriminate Hbad.
  - by apply app_not_dash.
  - by apply app_not_dash.
Qed.

(** The Duration cell of a log row shows '-' exactly when the duration of
    the record is zero or absent; in every other case it shows the
    formatted text, which is never empty. *)
Theorem duration_cell_dash (log : ActivityLog) :
  (ActivityLogs.duration_cell log = "-" ↔
   Spec.zero_or_absent (duration_seconds log)) ∧
  ActivityLogs.duration_cell log ≠ "" ∧
  (¬ Spec.zero_or_absent (duration_seconds log) →
   ActivityLogs.duration_cell log = Dashboard.formatDuration (duration_seconds log)).
Proof.
  unfold ActivityLogs.duration_cell, ActivityLogs.or_else.
  destruct (ActivityLogs.formatDuration (duration_seconds log)) as [s|] eqn:Hf.
  - destruct (activity_formatDuration_text_shape _ _ Hf) as [Hd He].
    assert (JS.truthy_str s = true) as -> by (by apply truthy_str_spec).
    split; [|split; [done|]].
    + split; [done|]. intros Hz%activity_formatDuration_falsy. congruence.
    + intros Hz. rewrite activity_formatDuration_truthy in Hf; [congruence|].
      destruct (JS.falsy _) eqn:Hfalsy; [|done]. by apply falsy_spec in Hfalsy.
  - split; [|split; [done|]].
    + split; [|done]. intros _. apply falsy_spec.
      destruct (JS.falsy (duration_seconds log)) eqn:Hfalsy; [done|].
      rewrite activity_formatDuration_truthy in Hf by done. discriminate.
    + intros Hz. destruct (JS.falsy (duration_seconds log)) eqn:Hfalsy.
      * by apply falsy_spec in Hfalsy.
      * rewrite activity_formatDuration_truthy in Hf by done. discriminate.
Qed.

Lemma duration_text_truncates (s : Z) :
  (60 ≤ s)%Z → Spec.duration_text s = Spec.duration_text (60 * (s `div` 60)).
Proof.
  intros Hs. unfold Spec.duration_text.
  assert (H1 : ((60 * (s `div` 60)) `div` 3600 = s `div` 3600)%Z)
    by (Z.to_euclidean_division_equations; lia).
  assert (H2 : (((60 * (s `div` 60)) `mod` 3600) `div` 60 = (s `mod` 3600) `div` 60)%Z)
    by (Z.to_euclidean_division_equations; lia).
  rewrite H1, H2.
  assert (0 < s `div` 3600 ∨ 0 < (s `mod` 3600) `div` 60)%Z
    by (Z.to_euclidean_division_equations; lia).
  repeat case_decide; try done; lia.
Qed.

(** From one minute on, seconds are dropped: a duration and the same
    duration rounded down to whole minutes are formatted alike, on both
    pages. *)
Theorem formatDuration_drops_seconds (s : Z) :
  (60 ≤ s)%Z →
  Dashboard.formatDuration (JS.Val s) =
    Dashboard.formatDuration (JS.Val (60 * (s `div` 60))%Z) ∧
  ActivityLogs.formatDuration (JS.Val s) =
    ActivityLogs.formatDuration (JS.Val (60 * (s `div` 60))%Z).
Proof.
  intros Hs.
  assert (60 ≤ 60 * (s `div` 60))%Z by (Z.to_euclidean_division_equations; lia).
  assert (HD : Dashboard.formatDuration (JS.Val s) =
               Dashboard.formatDuration (JS.Val (60 * (s `div` 60))%Z)).
  { rewrite !dashboard_formatDuration_text by lia. by apply duration_text_truncates. }
  split; [done|].
  rewrite !activity_formatDuration_truthy; [by rewrite HD | |];
    simpl; apply Z.eqb_neq; lia.
Qed.

(** 119 seconds read like 60 seconds. *)
Lemma formatDuration_drops_seconds_witness :
  Dashboard.formatDuration (JS.Val 119%Z) = Dashboard.formatDuration (JS.Val 60%Z).
Proof. exact (proj1 (formatDuration_drops_seconds 119 ltac:(lia))). Defined.

Lemma total_seconds_shift (logs : list ActivityLog) (acc : Z) :
  fold_left (λ sum log, (sum + ActivityLogs.or_zero (duration_seconds log))%Z)
    logs acc =
  (acc + fold_left (λ sum log, (sum + ActivityLogs.or_zero (duration_seconds log))%Z)
           logs 0)%Z.
Proof.
  revert acc. induction logs as [|l logs IH]; intros acc; simpl; [lia|].
  rewrite (IH (acc + _)%Z), (IH (0 + _)%Z). lia.
Qed.

Lemma total_seconds_perm (logs logs' : list ActivityLog) :
  logs ≡ₚ logs' →
  fold_left (λ sum log, (sum + ActivityLogs.or_zero (duration_seconds log))%Z) logs 0%Z =
  fold_left (λ sum log, (sum + ActivityLogs.or_zero (duration_seconds log))%Z) logs' 0%Z.
Proof.
  induction 1 as [|x l l' _ IH|x y l|l l' l'' _ IH1 _ IH2]; simpl.
  - done.
  - rewrite (total_seconds_shift l), (total_seconds_shift l'). by rewrite IH.
  - rewrite (total_seconds_shift l (0 + _ + _)%Z).
    rewrite (total_seconds_shift l (0 + _ + _)%Z). lia.
  - congruence.
Qed.

Lemma total_seconds_fold (logs : list ActivityLog) :
  fold_left (λ sum log, (sum + ActivityLogs.or_zero (duration_seconds log))%Z) logs 0%Z =
  Spec.total_seconds logs.
Proof.
  induction logs as [|l logs IH]; simpl; [done|].
  rewrite total_seconds_shift, IH. unfold Spec.seconds_of, ActivityLogs.or_zero. lia.
Qed.

Lemma total_seconds_app (l1 l2 : list ActivityLog) :
  Spec.total_seconds (l1 ++ l2) = (Spec.total_seconds l1 + Spec.total_seconds l2)%Z.
Proof. induction l1 as [|x l1 IH]; simpl; [done|]. rewrite IH. lia. Qed.

Lemma total_seconds_nonneg (logs : list ActivityLog) :
  Forall (λ log, (0 ≤ Spec.seconds_of log)%Z) logs → (0 ≤ Spec.total_seconds logs)%Z.
Proof. induction 1 as [|x l Hx _ IH]; simpl; lia. Qed.

Lemma safe_durations_perm (logs logs' : list ActivityLog) :
  logs ≡ₚ logs' → Spec.safe_durations logs → Spec.safe_durations logs'.
Proof.
  intros Hp [Hpos Hmax]. split; [by rewrite <-Hp|].
  by rewrite <-!total_seconds_fold, <-(total_seconds_perm _ _ Hp), total_seconds_fold.
Qed.

Lemma safe_durations_take (logs : list ActivityLog) (k : nat) :
  Spec.safe_durations logs →
  (0 ≤ Spec.total_seconds (take k logs) ≤ 9007199254740991)%Z.
Proof.
  intros [Hpos Hmax]. rewrite <-(take_drop k logs) in Hpos, Hmax.
  apply Forall_app in Hpos as [H1 H2]. rewrite total_seconds_app in Hmax.
  apply total_seconds_nonneg in H1, H2. lia.
Qed.

(** The Total Duration card depends on the loaded records only: it is the
    same for any order of the records and for any search query and action
    filter, so it does not follow the rows the filter leaves visible.  The
    durations are non-negative and their sum is a safe integer, at most
    2^53 - 1; every partial sum the reduction goes through, in either
    order, is then a safe integer too. *)
Theorem total_duration_ignores_order_and_filter
    (logs logs' fl fl' : list ActivityLog) (q q' a a' : string) :
  logs ≡ₚ logs' →
  Spec.safe_durations logs →
  ActivityLogs.total_duration_card (ActivityLogs.mkState logs fl q a) =
  ActivityLogs.total_duration_card (ActivityLogs.mkState logs' fl' q' a') ∧
  (∀ k l, l = logs ∨ l = logs' →
     (0 ≤ fold_left (λ sum log, (sum + ActivityLogs.or_zero (duration_seconds log))%Z)
            (take k l) 0 ≤ 9007199254740991)%Z).
Proof.
  intros Hp Hsafe. split.
  - unfold ActivityLogs.total_duration_card; cbn [ActivityLogs.logs].
    by rewrite (total_seconds_perm _ _ Hp).
  - intros k l [-> | ->]; rewrite total_seconds_fold; apply safe_durations_take;
      [done | by apply (safe_durations_perm logs)].
Qed.

(** Two records in either order, under different filters. *)
Lemma total_duration_ignores_order_and_filter_witness :
  let l1 := mkLog "1" "view" "Ada" "notes.pdf" "2024-01-15T10:00:00Z" (JS.Val 90%Z) in
  let l2 := mkLog "2" "download" "Bob" "plan.pdf" "2024-01-15T10:00:00Z" JS.Null in
  ActivityLogs.total_duration_card (ActivityLogs.mkState [l1; l2] [] "" "all") =
  ActivityLogs.total_duration_card (ActivityLogs.mkState [l2; l1] [l1] "notes" "view").
Proof.
  intros l1 l2.
  refine (proj1 (total_duration_ignores_order_and_filter [l1; l2] [l2; l1]
                   [] [l1] "" "notes" "all" "view" _ _)).
  - apply Permutation_swap.
  - split; [repeat constructor; by vm_compute | by vm_compute].
Defined.

(** ** Loading the Dashboard *)

(** [loadDashboardData] is all or nothing: when the five answers are all
    there, the recent activity is the first ten log records at most; when
    any one of them failed, summary, recent activity and statistics stay
    as they were and one error notification is added; the spinner is
    switched off either way. *)
Theorem loadDashboardData_all_or_nothing
    (st : Dashboard.State)
    (summaryRes : Answer WeeklySummary) (logsRes : Answer (list ActivityLog))
    (myDocsRes sharedDocsRes : Answer (list Document))
    (incomingReqRes : Answer (list Permission)) :
  let st' := Dashboard.loadDashboardData st summaryRes logsRes myDocsRes
               sharedDocsRes incomingReqRes in
  Dashboard.isLoading st' = false ∧
  ((∃ s lg my sh inc,
      summaryRes = Ok s ∧ logsRes = Ok lg ∧ myDocsRes = Ok my ∧
      sharedDocsRes = Ok sh ∧ incomingReqRes = Ok inc ∧
      Dashboard.summary st' = Some s ∧
      Dashboard.recentActivity st' `prefix_of` lg ∧
      length (Dashboard.recentActivity st') = min 10 (length lg) ∧
      Dashboard.myDocuments (Dashboard.stats st') = length my ∧
      Dashboard.sharedDocuments (Dashboard.stats st') = length sh ∧
      Dashboard.toasts st' = Dashboard.toasts st) ∨
   ((∃ e, summaryRes = Failed e ∨ logsRes = Failed e ∨ myDocsRes = Failed e ∨
          sharedDocsRes = Failed e ∨ incomingReqRes = Failed e) ∧
    Dashboard.summary st' = Dashboard.summary st ∧
    Dashboard.recentActivity st' = Dashboard.recentActivity st ∧
    Dashboard.stats st' = Dashboard.stats st ∧
    Dashboard.toasts st' = Dashboard.toasts st ++ ["Failed to load dashboard data"])).
Proof.
  intros st'. subst st'.
  destruct summaryRes as [s|e1], logsRes as [lg|e2], myDocsRes as [my|e3],
    sharedDocsRes as [sh|e4], incomingReqRes as [inc|e5];
    (split; [reflexivity|]);
    first [ left; exists s, lg, my, sh, inc;
            repeat split; solve [apply prefix_take | apply length_take]
          | right; split;
            [ first [ exists e1; tauto | exists e2; tauto | exists e3; tauto
                    | exists e4; tauto | exists e5; tauto ]
            | repeat split; reflexivity ] ].
Qed.

(** ** File sizes *)

(** [formatFileSize] picks the unit by the thresholds 1024 and 1024 * 1024,
    and in the KB and MB ranges shows the size to one decimal, rounded to
    the nearest tenth with ties upwards; the KB range runs up to
    '1024.0 KB'.  Sizes are integers up to 2^53 - 1. *)
Theorem formatFileSize_rounding (bytes : Z) :
  ((bytes < 1024)%Z → MyDocuments.formatFileSize bytes = pretty bytes +:+ " B") ∧
  ((1024 ≤ bytes < 1024 * 1024)%Z →
   ∃ n, MyDocuments.formatFileSize bytes
          = pretty (n `div` 10)%Z +:+ "." +:+ pretty (n `mod` 10)%Z +:+ " KB" ∧
        (10 ≤ n ≤ 10240)%Z ∧
        (2 * (1024 * n - 10 * bytes) ≤ 1024)%Z ∧
        (2 * (10 * bytes - 1024 * n) < 1024)%Z) ∧
  ((1024 * 1024 ≤ bytes ≤ 9007199254740991)%Z →
   ∃ n, MyDocuments.formatFileSize bytes
          = pretty (n `div` 10)%Z +:+ "." +:+ pretty (n `mod` 10)%Z +:+ " MB" ∧
        (10 ≤ n)%Z ∧
        (2 * (1024 * 1024 * n - 10 * bytes) ≤ 1024 * 1024)%Z ∧
        (2 * (10 * bytes - 1024 * 1024 * n) < 1024 * 1024)%Z).
Proof.
  unfold MyDocuments.formatFileSize, JS.toFixed1. split; [|split].
  - intros H. by destruct (Z.ltb_spec bytes 1024); [|lia].
  - intros H. destruct (Z.ltb_spec bytes 1024); [lia|].
    destruct (Z.ltb_spec bytes (1024 * 1024)); [|lia].
    exists ((20 * bytes + 1024) `div` (2 * 1024))%Z.
    split; [by rewrite !string_app_assoc|].
    Z.to_euclidean_division_equations; lia.
  - intros H. destruct (Z.ltb_spec bytes 1024); [lia|].
    destruct (Z.ltb_spec bytes (1024 * 1024)); [lia|].
    exists ((20 * bytes + 1024 * 1024) `div` (2 * (1024 * 1024)))%Z.
    split; [by rewrite !string_app_assoc|].
    Z.to_euclidean_division_equations; lia.
Qed.

(** ** Icons and colours of actions *)

Lemma eqb_cases (a s : string) : String.eqb a s = true ∧ a = s ∨ String.eqb a s = false ∧ a ≠ s.
Proof. destruct (String.eqb_spec a s); auto. Qed.

(** On the Activity Logs page two actions get the same colour exactly when
    they get the same icon; the Dashboard uses the same icon for view,
    download and upload and the document icon for every other action. *)
Theorem action_icon_colour_agree (a b : string) :
  (ActivityLogs.getActionColor a = ActivityLogs.getActionColor b ↔
   ActivityLogs.getActionIcon a = ActivityLogs.getActionIcon b) ∧
  Dashboard.getActionIcon a =
    match ActivityLogs.getActionIcon a with
    | IconEye => IconEye
    | IconDownload => IconDownload
    | IconUpload => IconUpload
    | _ => IconFileText
    end.
Proof.
  unfold ActivityLogs.getActionColor, ActivityLogs.getActionIcon,
    Dashboard.getActionIcon.
  split.
  - repeat match goal with
           | |- context [String.eqb ?x ?s] =>
               destruct (eqb_cases x s) as [[-> ?]|[-> ?]]; try subst x
           end; split; intros; first [reflexivity | discriminate].
  - repeat match goal with
           | |- context [String.eqb ?x ?s] =>
               destruct (eqb_cases x s) as [[-> ?]|[-> ?]]; try subst x
           end; first [reflexivity | discriminate].
Qed.

(** ** Uploading a document *)

Lemma formData_of_fields (file : string) (u : MyDocuments.UploadData) :
  MyDocuments.formData_of file u !! 0 = Some ("file", file) ∧
  ∀ k v, (k, v) ∈ MyDocuments.formData_of file u → k ≠ "file" → v ≠ "".
Proof.
  unfold MyDocuments.formData_of. split; [done|]. intros k v Hin Hk.
  destruct (JS.truthy_str (MyDocuments.upload_description u)) eqn:Hd,
           (JS.truthy_str (MyDocuments.upload_category u)) eqn:Hc;
    simpl in Hin;
    repeat (apply elem_of_cons in Hin as [[= -> ->]|Hin];
            [first [done | by apply truthy_str_spec]|]);
    by apply elem_of_nil in Hin.
Qed.

(** [handleUpload] posts a form exactly when a file is selected, and then
    exactly one: the file comes first, and a description or category is
    only sent when it is not empty.  The dialog is reset and the documents
    are loaded again only after a successful upload; after a failed one,
    or without a file, the selected file and the typed description and
    category are kept.  Every run raises exactly one notification. *)
Theorem handleUpload_outcome
    (detail : Api.AxiosError → JS.maybe string)
    (upload : list (string * string) → Answer unit)
    (d : MyDocuments.Dialog) :
  let o := MyDocuments.handleUpload detail upload d in
  (MyDocuments.uploads o = [] ↔ MyDocuments.selectedFile d = None) ∧
  length (MyDocuments.uploads o) ≤ 1 ∧
  (∀ f, f ∈ MyDocuments.uploads o →
        ∃ file, MyDocuments.selectedFile d = Some file ∧
                f !! 0 = Some ("file", file) ∧
                ∀ k v, (k, v) ∈ f → k ≠ "file" → v ≠ "") ∧
  ((MyDocuments.reloads o = 1 ∧
    (∃ f, MyDocuments.uploads o = [f] ∧ ∃ u, upload f = Ok u) ∧
    MyDocuments.uploadDialogOpen (MyDocuments.dialog o) = false ∧
    MyDocuments.selectedFile (MyDocuments.dialog o) = None ∧
    MyDocuments.uploadData (MyDocuments.dialog o) = MyDocuments.mkUploadData "" "") ∨
   (MyDocuments.reloads o = 0 ∧
    MyDocuments.uploadDialogOpen (MyDocuments.dialog o) = MyDocuments.uploadDialogOpen d ∧
    MyDocuments.selectedFile (MyDocuments.dialog o) = MyDocuments.selectedFile d ∧
    MyDocuments.uploadData (MyDocuments.dialog o) = MyDocuments.uploadData d)) ∧
  length (MyDocuments.toasts (MyDocuments.dialog o)) = S (length (MyDocuments.toasts d)).
Proof.
  intros o. subst o. unfold MyDocuments.handleUpload.
  destruct (MyDocuments.selectedFile d) as [file|] eqn:Hfile.
  - destruct (formData_of_fields file (MyDocuments.uploadData d)) as [H0 Hne].
    destruct (upload _) as [u|error] eqn:Hup; cbn.
    + split; [done|]. split; [lia|]. split.
      { intros f ->%list_elem_of_singleton. eauto. }
      split; [|by rewrite length_app, Nat.add_1_r].
      left. repeat split; eauto.
    + split; [done|]. split; [lia|]. split.
      { intros f ->%list_elem_of_singleton. eauto. }
      split; [|by rewrite length_app, Nat.add_1_r].
      right. by rewrite Hfile.
  - cbn. split; [done|]. split; [lia|]. split.
    { intros f Hf. by apply elem_of_nil in Hf. }
    split; [|by rewrite length_app, Nat.add_1_r].
    right. by rewrite Hfile.
Qed.

(** ** Signing in and out *)

Lemma string_of_empty (v : JS.maybe string) : JS.string_of v = "" ↔ v = JS.Val "".
Proof. destruct v as [| |s]; simpl; split; try done; congruence. Qed.

Lemma outgoing_authorization (b : Browser) (c : Api.Call) :
  headers (Api.outgoing b c) !! "Authorization" =
  match getItem b "token" with
  | Some t => if JS.truthy_str t then Some ("Bearer " +:+ t) else None
  | None => None
  end.
Proof.
  unfold Api.outgoing, Api.request_interceptor.
  destruct (getItem b "token") as [t|]; [|apply config_of_no_authorization].
  destruct (JS.truthy_str t); [apply lookup_insert_eq|].
  apply config_of_no_authorization.
Qed.

Lemma on_mount_authenticated (b : Browser) :
  App.isAuthenticated (App.on_mount b App.initial) = true ↔
  ∃ t, Spec.token_present b t.
Proof.
  unfold App.on_mount, Spec.token_present.
  destruct (getItem b "token") as [t|]; simpl.
  - destruct (JS.truthy_str t) eqn:Ht; simpl.
    + apply truthy_str_spec in Ht. split; eauto.
    + split; [done|]. intros (t' & [= <-] & Hne%truthy_str_spec). congruence.
  - split; [done | by intros (? & ? & _)].
Qed.

(** After a successful login the text of the answer's access_token is
    stored under 'token' and the user is let in at once.  The session
    survives a reload, and every later request carries
    [Authorization: Bearer <token>], unless the token was the empty
    string; an answer without access_token stores the text 'undefined',
    which counts as a token.  No other key of the storage is touched. *)
Theorem handleLogin_success
    (detail : Api.AxiosError → JS.maybe string) (b : Browser)
    (app : App.State) (st : LandingPage.State) (data : LandingPage.TokenResponse) :
  let r := LandingPage.handleLogin detail b app st (Ok data) in
  let token := JS.string_of (LandingPage.access_token data) in
  getItem r.1.1 "token" = Some token ∧
  (∀ k, k ≠ "token" → getItem r.1.1 k = getItem b k) ∧
  App.isAuthenticated r.1.2 = true ∧
  LandingPage.isLoading r.2 = false ∧
  (App.isAuthenticated (App.on_mount r.1.1 App.initial) = true ↔
   LandingPage.access_token data ≠ JS.Val "") ∧
  (∀ c, LandingPage.access_token data ≠ JS.Val "" →
        headers (Api.outgoing r.1.1 c) !! "Authorization" = Some ("Bearer " +:+ token)) ∧
  (∀ c, LandingPage.access_token data = JS.Val "" →
        headers (Api.outgoing r.1.1 c) !! "Authorization" = None).
Proof.
  intros r token. subst r. cbn [LandingPage.handleLogin fst snd].
  set (b' := mkBrowser _ _ _ _).
  assert (Hget : getItem b' "token" = Some token) by apply lookup_insert_eq.
  split; [done|]. split.
  { intros k Hk. unfold getItem; simpl. by rewrite lookup_insert_ne. }
  split; [done|]. split; [done|]. split; [|split].
  - rewrite on_mount_authenticated. unfold Spec.token_present. rewrite Hget.
    split.
    + intros (t & [= <-] & Hne) He. apply Hne. by apply string_of_empty.
    + intros Hne. exists token. split; [done|].
      intros He. apply Hne. by apply string_of_empty.
  - intros c Hne. rewrite outgoing_authorization, Hget.
    assert (JS.truthy_str token = true) as ->; [|done].
    apply truthy_str_spec. unfold token. by rewrite string_of_empty.
  - intros c He. rewrite outgoing_authorization, Hget.
    apply string_of_empty in He. fold token in He. by rewrite He.
Qed.

(** A failed login leaves the session as it was, switches the spinner
    off and shows the detail of the answer, or 'Login failed' when there is
    none.  Because the answer passed through the response interceptor
    first, a 401 also removes any token stored before and sends the
    browser to '/'; any other failure leaves storage and address alone. *)
Theorem handleLogin_failure
    (detail : Api.AxiosError → JS.maybe string) (b : Browser)
    (app : App.State) (st : LandingPage.State) (error : Api.AxiosError) :
  let r := LandingPage.handleLogin detail b app st (Failed error) in
  r.1.2 = app ∧
  LandingPage.isLoading r.2 = false ∧
  LandingPage.toasts r.2 =
    LandingPage.toasts st ++ [ToastError (JS.or_default (detail error) "Login failed")] ∧
  ((∃ x, Api.response error = Some x ∧ Api.status x = 401%Z) →
   getItem r.1.1 "token" = None ∧ location_href r.1.1 = "/") ∧
  ((¬ ∃ x, Api.response error = Some x ∧ Api.status x = 401%Z) →
   localStorage r.1.1 = localStorage b ∧ location_href r.1.1 = location_href b).
Proof.
  intros r. subst r. cbn [LandingPage.handleLogin fst snd].
  split; [done|]. split; [done|]. split; [done|].
  unfold Api.after_rejected, Api.response_rejected.
  destruct (Api.is_401 error) eqn:H401; cbn.
  - split; [|intros Hno; destruct Hno; by apply is_401_spec].
    intros _. split; [apply lookup_delete_eq | done].
  - split; [|done]. intros Hyes%is_401_spec. congruence.
Qed.

(** After [handleLogout] no token is stored, whatever was stored before,
    the other keys are untouched and the address is '/'.  The user is out
    at once and stays out after a reload, every route leads to the landing
    page, and no request carries an Authorization header. *)
Theorem handleLogout_clears (b : Browser) (app : App.State) :
  let r := Layout.handleLogout b app in
  getItem r.1 "token" = None ∧
  (∀ k, k ≠ "token" → getItem r.1 k = getItem b k) ∧
  location_href r.1 = "/" ∧
  App.isAuthenticated r.2 = false ∧
  App.isAuthenticated (App.on_mount r.1 App.initial) = false ∧
  (∀ l, App.settle 1 (App.mkState (App.isAuthenticated r.2) false) l
        = Some (App.Root, App.Landing)) ∧
  (∀ c, headers (Api.outgoing r.1 c) !! "Authorization" = None).
Proof.
  intros r. subst r. cbn [Layout.handleLogout fst snd].
  set (b' := run_effects b _).
  assert (Hget : getItem b' "token" = None) by apply lookup_delete_eq.
  split; [done|]. split.
  { intros k Hk. unfold getItem; simpl. by rewrite lookup_delete_ne. }
  split; [done|]. split; [done|]. split; [|split].
  - destruct (App.isAuthenticated (App.on_mount b' App.initial)) eqn:Ha; [|done].
    apply on_mount_authenticated in Ha as (t & Ht & _). congruence.
  - by intros [|p].
  - intros c. by rewrite outgoing_authorization, Hget.
Qed.

(** ** Routes *)

(** Once the mount effect has run, every location of the route table
    settles after at most one redirect: a visitor who is not signed in
    always ends on the landing page at '/', and a signed-in user never sees
    it, ending on the requested page or, from '/', on the Dashboard.  Until
    then every location shows the spinner, and the mount effect always
    ends that state. *)
Theorem route_guard (signed_in : bool) (l : App.Location) (b : Browser) (st : App.State) :
  (∃ l' e, App.settle 1 (App.mkState signed_in false) l = Some (l', e) ∧
     (signed_in = false → l' = App.Root ∧ e = App.Landing) ∧
     (signed_in = true →
        ∃ p, l' = App.At p ∧ e = App.InLayout p ∧
             (l = App.Root → p = App.DashboardPage) ∧
             (∀ q, l = App.At q → p = q))) ∧
  App.route (App.mkState signed_in true) l = App.Spinner ∧
  App.isLoading (App.on_mount b st) = false.
Proof.
  split; [|done].
  destruct signed_in, l as [|q]; cbn.
  - exists (App.At App.DashboardPage), (App.InLayout App.DashboardPage).
    split; [done|]. split; [done|]. intros _. exists App.DashboardPage.
    repeat split; done.
  - exists (App.At q), (App.InLayout q).
    split; [done|]. split; [done|]. intros _. exists q.
    repeat split; [done|]. by intros q' [= ->].
  - exists App.Root, App.Landing. repeat split; done.
  - exists App.Root, App.Landing. repeat split; done.
Qed.

Lemma active_at_most_one (pathname : string) (items : list (string * string)) :
  NoDup (snd <$> items) →
  length (filter (λ item, Layout.isActive pathname item = true) items) ≤ 1.
Proof.
  induction items as [|item items IH]; intros Hnd; [simpl; lia|].
  rewrite fmap_cons in Hnd. apply NoDup_cons in Hnd as [Hx Hnd].
  destruct (Layout.isActive pathname item) eqn:Ha.
  - rewrite filter_cons_True by done. simpl.
    destruct (filter (λ item, Layout.isActive pathname item = true) items)
      as [|y ys] eqn:Hf; [simpl; lia|].
    assert (Hy : y ∈ filter (λ item, Layout.isActive pathname item = true) items)
      by (rewrite Hf; left).
    apply list_elem_of_filter in Hy as [Hactive Hy].
    apply String.eqb_eq in Ha, Hactive. destruct Hx.
    rewrite <-Ha, Hactive. apply list_elem_of_fmap. by exists y.
  - rewrite filter_cons_False by congruence. auto.
Qed.

(** The sidebar and the route table agree: every entry of the sidebar
    points at a routed page, which a signed-in user is shown; every routed
    page has an entry; and at any address at most one entry is marked
    active. *)
Theorem navigation_routed :
  Forall
    (λ item, ∃ p, App.location_of (snd item) = Some (App.At p) ∧
                  App.route (App.mkState true false) (App.At p) = App.InLayout p)
    Layout.navigation ∧
  (∀ p, ∃ item, item ∈ Layout.navigation ∧ snd item = App.path_of (App.At p)) ∧
  (∀ pathname,
     length (filter (λ item, Layout.isActive pathname item = true) Layout.navigation) ≤ 1).
Proof.
  split; [|split].
  - repeat constructor.
    + by exists App.DashboardPage.
    + by exists App.MyDocumentsPage.
    + by exists App.SharedDocumentsPage.
    + by exists App.AccessRequestsPage.
    + by exists App.ActivityLogsPage.
    + by exists App.ProfilePage.
  - intros p. exists (nth (match p with
                            | App.DashboardPage => 0 | App.MyDocumentsPage => 1
                            | App.SharedDocumentsPage => 2 | App.AccessRequestsPage => 3
                            | App.ActivityLogsPage => 4 | App.ProfilePage => 5
                            end) Layout.navigation ("", "")).
    destruct p; cbn; (split; [|done]); set_solver.
  - intros pathname. apply active_at_most_one.
    apply (bool_decide_unpack _). by vm_compute.
Qed.

(** An answer with status 401 ends the session: after the reload that
    follows, the user is not signed in, the address is that of the landing
    page, which is what is rendered, and no request carries an
    Authorization header. *)
Theorem unauthorized_ends_session
    (b : Browser) (error : Api.AxiosError) (x : Api.Response) :
  Api.response error = Some x →
  Api.status x = 401%Z →
  let b' := Api.after_rejected b error in
  App.isAuthenticated (App.on_mount b' App.initial) = false ∧
  App.location_of (location_href b') = Some App.Root ∧
  App.settle 1 (App.on_mount b' App.initial) App.Root = Some (App.Root, App.Landing) ∧
  (∀ c, headers (Api.outgoing b' c) !! "Authorization" = None).
Proof.
  intros Hx Hs b'.
  assert (H401 : Api.is_401 error = true) by (apply is_401_spec; eauto).
  assert (Hb : b' = mkBrowser (delete "token" (localStorage b)) "/" (clock b) (sent b)).
  { subst b'. unfold Api.after_rejected, Api.response_rejected. by rewrite H401. }
  assert (Hget : getItem b' "token" = None) by (rewrite Hb; apply lookup_delete_eq).
  assert (Hout : App.isAuthenticated (App.on_mount b' App.initial) = false).
  { destruct (App.isAuthenticated (App.on_mount b' App.initial)) eqn:Ha; [|done].
    apply on_mount_authenticated in Ha as (t & Ht & _). congruence. }
  split; [done|]. split; [by rewrite Hb|]. split.
  - unfold App.settle, App.route. rewrite Hout.
    unfold App.on_mount. by destruct (getItem b' "token") as [t|]; [destruct (JS.truthy_str t)|].
  - intros c. by rewrite outgoing_authorization, Hget.
Qed.

(** A signed-in browser receives a 401. *)
Lemma unauthorized_ends_session_witness :
  let b := mkBrowser {["token" := "abc"]} "/documents" 0 [] in
  let error := Api.mkError (Some (Api.mkResponse 401 "")) "Unauthorized" in
  App.isAuthenticated (App.on_mount (Api.after_rejected b error) App.initial) = false.
Proof.
  intros b error.
  exact (proj1 (unauthorized_ends_session b error (Api.mkResponse 401 "")
                  eq_refl eq_refl)).
Defined.

(** ** The request interceptor, continued *)

(** The request interceptor is idempotent, and on any configuration the
    stored token wins: a header the caller had set is replaced when a
    token is held, and is passed on as it is when none is. *)
Theorem request_interceptor_idempotent (b : Browser) (cfg : Config) :
  Api.request_interceptor b (Api.request_interceptor b cfg)
    = Api.request_interceptor b cfg ∧
  (∀ t, Spec.token_present b t →
        headers (Api.request_interceptor b cfg) !! "Authorization"
          = Some ("Bearer " +:+ t)) ∧
  ((¬ ∃ t, Spec.token_present b t) →
        headers (Api.request_interceptor b cfg) !! "Authorization"
          = headers cfg !! "Authorization").
Proof.
  destruct (token_present_dec b) as [[t Ht]|Hno].
  - rewrite !(request_interceptor_token _ _ _ Ht). cbn. split; [|split].
    + by rewrite insert_insert_eq.
    + intros t' Ht'. destruct Ht as [Hg _], Ht' as [Hg' _].
      rewrite Hg in Hg'. injection Hg' as <-. apply lookup_insert_eq.
    + intros Hno. destruct Hno. eauto.
  - rewrite !(request_interceptor_no_token _ _ Hno). split; [done|]. split; [|done].
    intros t Ht. destruct Hno. eauto.
Qed.
